(** * qrgates: the ticket purchase handler (POST /api/orders)

    A shallow embedding of the order route handler and of the part of the
    Prisma schema it reads and writes.

    - Rows are records carrying the columns of the schema.  The
      storage-managed [createdAt]/[updatedAt] columns are left out: the
      handler neither reads nor writes them.
    - [Int] columns and the cart's [quantity] are integers ([Z]), the
      cart's quantity being the integer its JavaScript number holds;
      [Float] columns and the cart's [price] are IEEE-754 doubles
      ([float]), as JavaScript numbers are.
    - The handler is a program over storage and collaborator operations
      ([Op]); every [await] of the source is one operation.  Running a
      program alone gives the sequential behaviour ([runProg], [POST]);
      scheduling several programs operation by operation gives the
      request-parallel behaviour ([interleave]).  Reading the clock is an
      operation of its own.
    - [generateQRCode], [sendTicketEmail], the id generator [cuid] and the
      clock are collaborators outside the handler; they are parameters.
      A collaborator may reject, which makes the handler throw.
    - Storage calls are taken to fail only where the schema makes them
      fail on the handler's own path (a missing row); values stay within
      the range of their columns. *)

From Stdlib Require Import ZArith List String Ascii Bool Lia.
From Stdlib Require Import DecimalString DecimalNat.
From Stdlib Require DecimalPos DecimalZ.
From Stdlib Require Import PrimFloat Uint63.
From Stdlib Require FloatOps SpecFloat.
Import ListNotations.

Open Scope string_scope.
Open Scope Z_scope.

(* ================================================================== *)
(** ** JavaScript values used by the handler *)

(** The JavaScript number for the integer [z]: the double nearest to it,
    ties to even, and an infinity beyond the range of the doubles.  An
    integer a double holds is taken as it is, whatever its size. *)
Definition Z2float (z : Z) : float :=
  FloatOps.SF2Prim
    (SpecFloat.binary_normalize FloatOps.prec FloatOps.emax z 0 false).

(** Truthiness of a number: [0], [-0] and [NaN] are falsy. *)
Definition truthy_num (f : float) : bool :=
  negb (PrimFloat.is_zero f || PrimFloat.is_nan f).

(** Truthiness of an optional string: [undefined] and [""] are falsy. *)
Definition truthy_str (s : option string) : bool :=
  match s with
  | Some s => negb (String.eqb s "")
  | None => false
  end.

#[local] Set Warnings "-register-all".

Inductive json : Type :=
| JNull
| JBool (b : bool)
| JInt (z : Z)
| JNum (f : float)
| JStr (s : string)
| JArr (l : list json)
| JObj (fields : list (string * json)).

Definition json_opt_str (s : option string) : json :=
  match s with Some s => JStr s | None => JNull end.

Fixpoint assoc_get (k : string) (fields : list (string * json)) : option json :=
  match fields with
  | [] => None
  | (k', v) :: rest => if String.eqb k k' then Some v else assoc_get k rest
  end.

(** Property access [o.k] on a JSON value; [None] stands for [undefined]. *)
Definition json_get (k : string) (o : json) : option json :=
  match o with
  | JObj fields => assoc_get k fields
  | _ => None
  end.

Definition nat_to_string (n : nat) : string :=
  NilEmpty.string_of_uint (Nat.to_uint n).

(** [s.split(sep)] for a one-character separator. *)
Fixpoint split (sep : ascii) (s : string) : list string :=
  match s with
  | EmptyString => [EmptyString]
  | String c r =>
      if Ascii.eqb c sep then EmptyString :: split sep r
      else match split sep r with
           | h :: t => String c h :: t
           | [] => [String c EmptyString]
           end
  end.

(* ================================================================== *)
(** ** The schema (prisma/schema.prisma) *)

Module EventStatus.
Inductive t := UPCOMING | ONGOING | COMPLETED | CANCELLED.
Definition to_string (s : t) : string :=
  match s with
  | UPCOMING => "UPCOMING" | ONGOING => "ONGOING"
  | COMPLETED => "COMPLETED" | CANCELLED => "CANCELLED"
  end.
End EventStatus.

Module OrderStatus.
Inductive t := PENDING | COMPLETED | CANCELLED | REFUNDED.
Definition to_string (s : t) : string :=
  match s with
  | PENDING => "PENDING" | COMPLETED => "COMPLETED"
  | CANCELLED => "CANCELLED" | REFUNDED => "REFUNDED"
  end.
End OrderStatus.

Module Event.
Record t := mk {
  id : string;
  title : string;
  description : option string;
  category : string;
  location : string;
  startDate : Z;
  endDate : Z;
  mainImage : option string;
  price : float;
  totalTickets : Z;
  soldTickets : Z;
  status : EventStatus.t;
  organizerId : string
}.
Definition set_soldTickets (n : Z) (e : t) : t :=
  mk (id e) (title e) (description e) (category e) (location e)
     (startDate e) (endDate e) (mainImage e) (price e) (totalTickets e)
     n (status e) (organizerId e).
Definition to_json (e : t) : json :=
  JObj [("id", JStr (id e)); ("title", JStr (title e));
        ("description", json_opt_str (description e));
        ("category", JStr (category e)); ("location", JStr (location e));
        ("startDate", JInt (startDate e)); ("endDate", JInt (endDate e));
        ("mainImage", json_opt_str (mainImage e));
        ("price", JNum (price e));
        ("totalTickets", JInt (totalTickets e));
        ("soldTickets", JInt (soldTickets e));
        ("status", JStr (EventStatus.to_string (status e)));
        ("organizerId", JStr (organizerId e))].
End Event.

Module TicketType.
Record t := mk {
  id : string;
  name : string;
  price : float;
  quantity : Z;
  soldCount : Z;
  description : option string;
  eventId : string
}.
Definition set_soldCount (n : Z) (x : t) : t :=
  mk (id x) (name x) (price x) (quantity x) n (description x) (eventId x).
End TicketType.

Module Order.
Record t := mk {
  id : string;
  total : float;
  status : OrderStatus.t;          (* @default(PENDING) *)
  paymentMethod : option string;
  paymentId : option string;
  reference : option string;
  userId : string;
  eventId : string
}.
End Order.

Module Ticket.
Record t := mk {
  id : string;
  qrCode : string;
  type : string;
  price : float;
  isUsed : bool;                   (* @default(false) *)
  usedAt : option Z;
  eventId : string;
  userId : string;
  orderId : string;
  ticketTypeId : option string
}.
End Ticket.

(* ================================================================== *)
(** ** Requests and responses *)

Module Item.
(** One entry of [body.items]; [None] is an absent ([undefined]) field. *)
Record t := mk {
  eventId : option string;
  quantity : option Z;
  ticketTypeId : option string;
  ticketType : option string;
  price : option float
}.
End Item.

Module Body.
(** [items] is [None] when the field is not an array. *)
Record t := mk {
  items : option (list Item.t);
  userInfo : json;
  paymentMethod : json;
  total : json
}.
End Body.

Module SessionUser.
Record t := mk {
  id : string;
  name : option string;
  email : option string
}.
End SessionUser.

Module Request.
(** [session] is what [getServerSession] resolves to; [body] is [None]
    when [request.json()] rejects. *)
Record t := mk {
  session : option SessionUser.t;
  body : option Body.t
}.
End Request.

Module Response.
Record t := mk { body : json; status : Z }.
End Response.

(** [NextResponse.json({ error: msg }, { status })]. *)
Definition error_response (msg : string) (status : Z) : Response.t :=
  Response.mk (JObj [("error", JStr msg)]) status.

(* ================================================================== *)
(** ** Arguments and results of the awaited calls *)

(** The object handed to [generateQRCode]. *)
Module QRData.
Record t := mk {
  eventId : string;
  userId : string;
  orderId : string;
  ticketNumber : Z;
  timestamp : Z
}.
End QRData.

(** One element of [ticketsToCreate]. *)
Module TicketData.
Record t := mk {
  qrCode : string;
  type : string;
  price : float;
  eventId : string;
  userId : string;
  orderId : string;
  ticketTypeId : string
}.
End TicketData.

(** [data] of [prisma.order.create]. *)
Module OrderData.
Record t := mk { total : float; userId : string; eventId : string }.
End OrderData.

(** Result of [prisma.event.findUnique] with [include: { ticketTypes: true }]. *)
Module EventWithTypes.
Record t := mk { event : Event.t; ticketTypes : list TicketType.t }.
End EventWithTypes.

(** Result of [prisma.order.create] with [include: { event: true }]. *)
Module OrderWithEvent.
Record t := mk { order : Order.t; event : Event.t }.
Definition to_json (o : t) : json :=
  JObj [("id", JStr (Order.id (order o)));
        ("total", JNum (Order.total (order o)));
        ("status", JStr (OrderStatus.to_string (Order.status (order o))));
        ("paymentMethod", json_opt_str (Order.paymentMethod (order o)));
        ("paymentId", json_opt_str (Order.paymentId (order o)));
        ("reference", json_opt_str (Order.reference (order o)));
        ("userId", JStr (Order.userId (order o)));
        ("eventId", JStr (Order.eventId (order o)));
        ("event", Event.to_json (event o))].
End OrderWithEvent.

Module Attachment.
Record t := mk {
  filename : string;
  content : option string;
  encoding : string;
  cid : string
}.
End Attachment.

Module EmailTicket.
Record t := mk { qrCode : string; type : string; price : float }.
End EmailTicket.

Module EmailEvent.
Record t := mk {
  title : string; location : string; startDate : Z; endDate : Z
}.
End EmailEvent.

Module EmailArgs.
Record t := mk {
  user_name : option string;
  user_email : option string;
  tickets : list EmailTicket.t;
  event : EmailEvent.t;
  attachments : list Attachment.t
}.
End EmailArgs.

(* ================================================================== *)
(** ** Programs over awaited operations *)

(** The calls the handler awaits (and its reading of the clock), each with
    the type of the value it resolves to. *)
Inductive Op : Type -> Type :=
| GetServerSession (request : Request.t) : Op (option SessionUser.t)
| RequestJson (request : Request.t) : Op Body.t
| EventFindUnique (id : string) : Op (option EventWithTypes.t)
| OrderCreate (data : OrderData.t) : Op OrderWithEvent.t
| DateNow : Op Z
| GenerateQRCode (data : QRData.t) : Op string
| TicketCreateMany (data : list TicketData.t) : Op unit
| SendTicketEmail (args : EmailArgs.t) : Op unit
| TicketTypeIncrementSoldCount (id : string) (n : Z) : Op unit
| EventIncrementSoldTickets (id : string) (n : Z) : Op unit.

Inductive Prog (A : Type) : Type :=
| Ret (a : A)
| Vis {X : Type} (op : Op X) (k : X -> Prog A).

Arguments Ret {A} a.
Arguments Vis {A X} op k.

Fixpoint bind {A B} (p : Prog A) (f : A -> Prog B) : Prog B :=
  match p with
  | Ret a => f a
  | Vis op k => Vis op (fun x => bind (k x) f)
  end.

Definition await {X} (op : Op X) : Prog X := Vis op Ret.

Declare Scope prog_scope.
Delimit Scope prog_scope with prog.
Notation "x <- c ;; k" := (bind c (fun x => k))
  (at level 61, c at next level, right associativity) : prog_scope.
Notation "c ;;; k" := (bind c (fun _ => k))
  (at level 61, right associativity) : prog_scope.
Open Scope prog_scope.

(* ================================================================== *)
(** ** The handler (app/api/orders/route.ts, POST) *)

(** An early [return NextResponse.json(...)] out of the loop body is [inl]. *)
Definition Early (A : Type) : Type := (Response.t + A)%type.

(** [s === o] where [o] may be [undefined]. *)
Definition strict_eq (s : string) (o : option string) : bool :=
  match o with
  | Some x => String.eqb s x
  | None => false
  end.

(** Lines 108-132: the ticket type of a line item. *)
Definition resolveTicketType (event : EventWithTypes.t)
    (ticketTypeId ticketType : option string) : Early TicketType.t :=
  let types := EventWithTypes.ticketTypes event in
  let ticketTypeObj : Early (option TicketType.t) :=
    if truthy_str ticketTypeId then
      match find (fun type => strict_eq (TicketType.id type) ticketTypeId) types with
      | Some t => inr (Some t)
      | None => inl (error_response "Ticket type not found" 404)
      end
    else if truthy_str ticketType then
      inr (find (fun type => strict_eq (TicketType.name type) ticketType) types)
    else
      inr (hd_error types)
  in
  match ticketTypeObj with
  | inl r => inl r
  | inr None => inl (error_response "No ticket types available for this event" 400)
  | inr (Some t) => inr t
  end.

(** Lines 142-144: [price ? price * quantity : ticketTypeObj.price * quantity]. *)
Definition orderTotal (price : option float) (ticketTypeObj : TicketType.t)
    (quantity : Z) : float :=
  match price with
  | Some p =>
      if truthy_num p then PrimFloat.mul p (Z2float quantity)
      else PrimFloat.mul (TicketType.price ticketTypeObj) (Z2float quantity)
  | None => PrimFloat.mul (TicketType.price ticketTypeObj) (Z2float quantity)
  end.

(** Lines 159-177: [for (let i = 0; i < quantity; i++)], entered with
    [todo] iterations left and the tickets pushed so far. *)
Fixpoint mintTickets (eventId : string) (user : SessionUser.t)
    (orderId : string) (ticketTypeObj : TicketType.t)
    (todo : nat) (i : Z) (ticketsToCreate : list TicketData.t)
    : Prog (list TicketData.t) :=
  match todo with
  | O => Ret ticketsToCreate
  | S todo' =>
      now <- await DateNow ;;
      qrCode <- await (GenerateQRCode
                  (QRData.mk eventId (SessionUser.id user) orderId (i + 1) now)) ;;
      mintTickets eventId user orderId ticketTypeObj todo' (i + 1)
        (ticketsToCreate ++
           [TicketData.mk qrCode (TicketType.name ticketTypeObj)
              (TicketType.price ticketTypeObj) eventId (SessionUser.id user)
              orderId (TicketType.id ticketTypeObj)])
  end.

(** [xs.map((x, idx) => f x idx)], with [idx] counted from [start]. *)
Fixpoint mapi {A B} (f : A -> nat -> B) (start : nat) (xs : list A) : list B :=
  match xs with
  | [] => []
  | x :: rest => f x start :: mapi f (S start) rest
  end.

(** Lines 185-194. *)
Definition attachments_of (ticketsToCreate : list TicketData.t)
    : list Attachment.t :=
  mapi (fun t idx =>
          let base64 := nth_error (split "," (TicketData.qrCode t)) 1 in
          Attachment.mk
            ("ticket-" ++ nat_to_string (idx + 1) ++ ".png")
            base64
            "base64"
            ("qrcode" ++ nat_to_string (idx + 1) ++ "@tickets.qrgate.app"))
       0%nat ticketsToCreate.

(** Lines 196-213: the argument of [sendTicketEmail]. *)
Definition email_of (user : SessionUser.t) (order : OrderWithEvent.t)
    (ticketsToCreate : list TicketData.t) : EmailArgs.t :=
  EmailArgs.mk
    (SessionUser.name user)
    (SessionUser.email user)
    (mapi (fun t idx =>
             EmailTicket.mk
               ("cid:qrcode" ++ nat_to_string (idx + 1) ++ "@tickets.qrgate.app")
               (TicketData.type t) (TicketData.price t))
          0%nat ticketsToCreate)
    (EmailEvent.mk
       (Event.title (OrderWithEvent.event order))
       (Event.location (OrderWithEvent.event order))
       (Event.startDate (OrderWithEvent.event order))
       (Event.endDate (OrderWithEvent.event order)))
    (attachments_of ticketsToCreate).

(** Lines 134-231: from the availability check to the ledger increments,
    for a resolved ticket type. *)
Definition issue (user : SessionUser.t) (eventId : string)
    (price : option float) (quantity : Z) (ticketTypeObj : TicketType.t)
    : Prog (Early OrderWithEvent.t) :=
  let availableTickets :=
    TicketType.quantity ticketTypeObj - TicketType.soldCount ticketTypeObj in
  if availableTickets <? quantity then
    Ret (inl (error_response "Not enough tickets available" 400))
  else
    order <- await (OrderCreate
               (OrderData.mk (orderTotal price ticketTypeObj quantity)
                  (SessionUser.id user) eventId)) ;;
    ticketsToCreate <-
      mintTickets eventId user (Order.id (OrderWithEvent.order order))
        ticketTypeObj (Z.to_nat quantity) 0 [] ;;
    await (TicketCreateMany ticketsToCreate) ;;;
    await (SendTicketEmail (email_of user order ticketsToCreate)) ;;;
    await (TicketTypeIncrementSoldCount (TicketType.id ticketTypeObj) quantity) ;;;
    await (EventIncrementSoldTickets eventId quantity) ;;;
    Ret (inr order).

(** Line 88: [quantity = 1] in the destructuring of the item. *)
Definition quantity_of (item : Item.t) : Z :=
  match Item.quantity item with
  | Some q => q
  | None => 1
  end.

(** Lines 88-233: the body of [for (const item of items)]. *)
Definition POST_item (user : SessionUser.t) (item : Item.t)
    : Prog (Early OrderWithEvent.t) :=
  let quantity := quantity_of item in
  match Item.eventId item with
  | Some eventId =>
      if truthy_str (Some eventId) then
        event <- await (EventFindUnique eventId) ;;
        match event with
        | None => Ret (inl (error_response "Event not found" 404))
        | Some event =>
            match resolveTicketType event
                    (Item.ticketTypeId item) (Item.ticketType item) with
            | inl r => Ret (inl r)
            | inr ticketTypeObj =>
                issue user eventId (Item.price item) quantity ticketTypeObj
            end
        end
      else Ret (inl (error_response "Missing eventId in item" 400))
  | None => Ret (inl (error_response "Missing eventId in item" 400))
  end.

(** Line 236: [NextResponse.json({ orders: createdOrders }, { status: 201 })]. *)
Definition created_response (createdOrders : list OrderWithEvent.t)
    : Response.t :=
  Response.mk
    (JObj [("orders", JArr (map OrderWithEvent.to_json createdOrders))]) 201.

(** Lines 85-236: the loop over the cart and the final response. *)
Fixpoint POST_items (user : SessionUser.t) (items : list Item.t)
    (createdOrders : list OrderWithEvent.t) : Prog Response.t :=
  match items with
  | [] => Ret (created_response createdOrders)
  | item :: rest =>
      r <- POST_item user item ;;
      match r with
      | inl response => Ret response
      | inr order => POST_items user rest (createdOrders ++ [order])
      end
  end.

(** Lines 72-236: the body of the [try] block. *)
Definition POST_try (request : Request.t) : Prog Response.t :=
  session <- await (GetServerSession request) ;;
  match session with
  | Some user =>
      if truthy_str (Some (SessionUser.id user)) then
        body <- await (RequestJson request) ;;
        match Body.items body with
        | Some (item :: rest) => POST_items user (item :: rest) []
        | _ => Ret (error_response "No items in order" 400)
        end
      else Ret (error_response "Unauthorized" 401)
  | None => Ret (error_response "Unauthorized" 401)
  end.

(* ================================================================== *)
(** ** The world the operations act on *)

(** How a call of [sendTicketEmail] ends: it resolves with the mail
    sent, it resolves although the mail was not sent, or it rejects.  The
    handler awaits the call and discards what it resolves to. *)
Inductive Delivery := Sent | Unsent | Rejected.

Definition resolves (d : Delivery) : bool :=
  match d with
  | Rejected => false
  | _ => true
  end.

Module World.
(** The four tables the handler touches, the number of ids and clock
    readings drawn so far, and the delivery attempts made so far (the
    mails handed to [sendTicketEmail], each with how the call ended). *)
Record t := mk {
  events : list Event.t;
  ticketTypes : list TicketType.t;
  orders : list Order.t;
  tickets : list Ticket.t;
  cuids : nat;
  ticks : nat;
  mails : list (EmailArgs.t * Delivery)
}.
End World.

Definition find_event (id : string) (w : World.t) : option Event.t :=
  find (fun e => String.eqb (Event.id e) id) (World.events w).

Definition types_of_event (id : string) (w : World.t) : list TicketType.t :=
  filter (fun t => String.eqb (TicketType.eventId t) id) (World.ticketTypes w).

Definition find_ticketType (id : string) (w : World.t) : option TicketType.t :=
  find (fun t => String.eqb (TicketType.id t) id) (World.ticketTypes w).

Definition has_ticketType (id : string) (w : World.t) : bool :=
  existsb (fun t => String.eqb (TicketType.id t) id) (World.ticketTypes w).

(** [soldCount: { increment: n }] on the row with this id. *)
Definition increment_soldCount (id : string) (n : Z)
    (rows : list TicketType.t) : list TicketType.t :=
  map (fun t =>
         if String.eqb (TicketType.id t) id
         then TicketType.set_soldCount (TicketType.soldCount t + n) t
         else t) rows.

(** [soldTickets: { increment: n }] on the row with this id. *)
Definition increment_soldTickets (id : string) (n : Z)
    (rows : list Event.t) : list Event.t :=
  map (fun e =>
         if String.eqb (Event.id e) id
         then Event.set_soldTickets (Event.soldTickets e + n) e
         else e) rows.

Section Collaborators.

(** Prisma's [cuid()]: the [n]-th id it hands out. *)
Variable cuid : nat -> string.
(** [Date.now()]: the [n]-th reading of the clock. *)
Variable Date_now : nat -> Z.
(** lib/qr-code: the data URL of the code, or [None] when it rejects. *)
Variable generateQRCode : QRData.t -> option string.
(** lib/email/sendTicketEmail: how the [n]-th delivery attempt, of this
    mail, ends. *)
Variable sendTicketEmail : nat -> EmailArgs.t -> Delivery.

(** The rows [createMany] inserts, ids drawn from [next] on. *)
Definition ticket_rows (next : nat) (data : list TicketData.t)
    : list Ticket.t :=
  mapi (fun d idx =>
          Ticket.mk (cuid idx) (TicketData.qrCode d) (TicketData.type d)
            (TicketData.price d) false None (TicketData.eventId d)
            (TicketData.userId d) (TicketData.orderId d)
            (Some (TicketData.ticketTypeId d)))
       next data.

(** One awaited operation: the value it resolves to ([None] when it
    rejects) and the world it leaves. *)
Definition exec {X} (op : Op X) (w : World.t) : option X * World.t :=
  match op in Op X return option X * World.t with
  | GetServerSession request => (Some (Request.session request), w)
  | RequestJson request => (Request.body request, w)
  | EventFindUnique id =>
      (Some (match find_event id w with
             | Some e => Some (EventWithTypes.mk e (types_of_event id w))
             | None => None
             end), w)
  | OrderCreate data =>
      match find_event (OrderData.eventId data) w with
      | Some e =>
          let order :=
            Order.mk (cuid (World.cuids w)) (OrderData.total data)
              OrderStatus.PENDING None None None
              (OrderData.userId data) (OrderData.eventId data) in
          (Some (OrderWithEvent.mk order e),
           World.mk (World.events w) (World.ticketTypes w)
             (World.orders w ++ [order]) (World.tickets w)
             (S (World.cuids w)) (World.ticks w) (World.mails w))
      | None => (None, w)
      end
  | DateNow =>
      (Some (Date_now (World.ticks w)),
       World.mk (World.events w) (World.ticketTypes w) (World.orders w)
         (World.tickets w) (World.cuids w) (S (World.ticks w))
         (World.mails w))
  | GenerateQRCode data => (generateQRCode data, w)
  | TicketCreateMany data =>
      (Some tt,
       World.mk (World.events w) (World.ticketTypes w) (World.orders w)
         (World.tickets w ++ ticket_rows (World.cuids w) data)
         (World.cuids w + List.length data)%nat (World.ticks w) (World.mails w))
  | SendTicketEmail args =>
      let sent := sendTicketEmail (List.length (World.mails w)) args in
      ((if resolves sent then Some tt else None),
       World.mk (World.events w) (World.ticketTypes w) (World.orders w)
         (World.tickets w) (World.cuids w) (World.ticks w)
         (World.mails w ++ [(args, sent)]))
  | TicketTypeIncrementSoldCount id n =>
      if has_ticketType id w then
        (Some tt,
         World.mk (World.events w)
           (increment_soldCount id n (World.ticketTypes w))
           (World.orders w) (World.tickets w) (World.cuids w)
           (World.ticks w) (World.mails w))
      else (None, w)
  | EventIncrementSoldTickets id n =>
      match find_event id w with
      | Some _ =>
          (Some tt,
           World.mk (increment_soldTickets id n (World.events w))
             (World.ticketTypes w) (World.orders w) (World.tickets w)
             (World.cuids w) (World.ticks w) (World.mails w))
      | None => (None, w)
      end
  end.

(** The world after [n] more readings of the clock. *)
Definition tick_by (n : nat) (w : World.t) : World.t :=
  World.mk (World.events w) (World.ticketTypes w) (World.orders w)
    (World.tickets w) (World.cuids w) (World.ticks w + n)%nat
    (World.mails w).

(** What the minting loop pushes when the clock stands at reading
    [tick]; [None] when some [generateQRCode] rejects. *)
Fixpoint minted (eventId : string) (user : SessionUser.t)
    (orderId : string) (ticketTypeObj : TicketType.t)
    (todo : nat) (i : Z) (tick : nat) : option (list TicketData.t) :=
  match todo with
  | O => Some []
  | S todo' =>
      match generateQRCode
              (QRData.mk eventId (SessionUser.id user) orderId (i + 1)
                 (Date_now tick)) with
      | Some qrCode =>
          match minted eventId user orderId ticketTypeObj todo' (i + 1)
                  (S tick) with
          | Some rest =>
              Some (TicketData.mk qrCode (TicketType.name ticketTypeObj)
                      (TicketType.price ticketTypeObj) eventId
                      (SessionUser.id user) orderId
                      (TicketType.id ticketTypeObj) :: rest)
          | None => None
          end
      | None => None
      end
  end.

(** The order row [prisma.order.create] inserts for a line item. *)
Definition new_order (w : World.t) (user : SessionUser.t) (eventId : string)
    (price : option float) (quantity : Z) (ticketTypeObj : TicketType.t)
    : Order.t :=
  Order.mk (cuid (World.cuids w)) (orderTotal price ticketTypeObj quantity)
    OrderStatus.PENDING None None None (SessionUser.id user) eventId.

(** The world a line item leaves when every step of it went through. *)
Definition issued (w : World.t) (user : SessionUser.t) (eventId : string)
    (price : option float) (quantity : Z) (ticketTypeObj : TicketType.t)
    (ev : Event.t) (l : list TicketData.t) : World.t :=
  let o := new_order w user eventId price quantity ticketTypeObj in
  World.mk
    (increment_soldTickets eventId quantity (World.events w))
    (increment_soldCount (TicketType.id ticketTypeObj) quantity
       (World.ticketTypes w))
    (World.orders w ++ [o])
    (World.tickets w ++ ticket_rows (S (World.cuids w)) l)
    (S (World.cuids w) + List.length l)%nat
    (World.ticks w + Z.to_nat quantity)%nat
    (World.mails w
     ++ [(email_of user (OrderWithEvent.mk o ev) l,
          sendTicketEmail (List.length (World.mails w))
            (email_of user (OrderWithEvent.mk o ev) l))]).

(** The world after the order row [o] was written and the clock was
    read [n] times. *)
Definition ordered (w : World.t) (o : Order.t) (n : nat) : World.t :=
  World.mk (World.events w) (World.ticketTypes w) (World.orders w ++ [o])
    (World.tickets w) (S (World.cuids w)) (World.ticks w + n)%nat
    (World.mails w).

(** The world after the order row [o] and the tickets [l] of a line item
    of this quantity were written. *)
Definition persisted (w : World.t) (o : Order.t) (l : list TicketData.t)
    (quantity : Z) : World.t :=
  World.mk (World.events w) (World.ticketTypes w) (World.orders w ++ [o])
    (World.tickets w ++ ticket_rows (S (World.cuids w)) l)
    (S (World.cuids w) + List.length l)%nat
    (World.ticks w + Z.to_nat quantity)%nat
    (World.mails w).

(** The world after one more delivery attempt. *)
Definition mailed (w : World.t) (args : EmailArgs.t) (sent : Delivery)
    : World.t :=
  World.mk (World.events w) (World.ticketTypes w) (World.orders w)
    (World.tickets w) (World.cuids w) (World.ticks w)
    (World.mails w ++ [(args, sent)]).

(** How [issue] can end: refused before any write, through, or thrown at
    one of the awaited operations. *)
Inductive issue_outcome (w : World.t) (user : SessionUser.t)
    (eventId : string) (price : option float) (quantity : Z)
    (ticketTypeObj : TicketType.t)
    : option (Early OrderWithEvent.t) -> World.t -> Prop :=
| issue_refused :
    TicketType.quantity ticketTypeObj - TicketType.soldCount ticketTypeObj
      < quantity ->
    issue_outcome w user eventId price quantity ticketTypeObj
      (Some (inl (error_response "Not enough tickets available" 400))) w
| issue_through ev l :
    find_event eventId w = Some ev ->
    has_ticketType (TicketType.id ticketTypeObj) w = true ->
    quantity <= TicketType.quantity ticketTypeObj
                - TicketType.soldCount ticketTypeObj ->
    minted eventId user (cuid (World.cuids w)) ticketTypeObj
      (Z.to_nat quantity) 0 (World.ticks w) = Some l ->
    resolves
      (sendTicketEmail (List.length (World.mails w))
         (email_of user
            (OrderWithEvent.mk
               (new_order w user eventId price quantity ticketTypeObj) ev) l))
    = true ->
    issue_outcome w user eventId price quantity ticketTypeObj
      (Some (inr (OrderWithEvent.mk
                    (new_order w user eventId price quantity ticketTypeObj)
                    ev)))
      (issued w user eventId price quantity ticketTypeObj ev l)
| issue_no_event :
    quantity <= TicketType.quantity ticketTypeObj
                - TicketType.soldCount ticketTypeObj ->
    find_event eventId w = None ->
    issue_outcome w user eventId price quantity ticketTypeObj None w
| issue_mint_rejected ev n :
    quantity <= TicketType.quantity ticketTypeObj
                - TicketType.soldCount ticketTypeObj ->
    find_event eventId w = Some ev ->
    minted eventId user (cuid (World.cuids w)) ticketTypeObj
      (Z.to_nat quantity) 0 (World.ticks w) = None ->
    issue_outcome w user eventId price quantity ticketTypeObj None
      (ordered w (new_order w user eventId price quantity ticketTypeObj) n)
| issue_undelivered ev l :
    quantity <= TicketType.quantity ticketTypeObj
                - TicketType.soldCount ticketTypeObj ->
    find_event eventId w = Some ev ->
    minted eventId user (cuid (World.cuids w)) ticketTypeObj
      (Z.to_nat quantity) 0 (World.ticks w) = Some l ->
    sendTicketEmail (List.length (World.mails w))
      (email_of user
         (OrderWithEvent.mk
            (new_order w user eventId price quantity ticketTypeObj) ev) l)
    = Rejected ->
    issue_outcome w user eventId price quantity ticketTypeObj None
      (mailed
         (persisted w (new_order w user eventId price quantity ticketTypeObj)
            l quantity)
         (email_of user
            (OrderWithEvent.mk
               (new_order w user eventId price quantity ticketTypeObj) ev) l)
         Rejected)
| issue_no_ticketType ev l :
    quantity <= TicketType.quantity ticketTypeObj
                - TicketType.soldCount ticketTypeObj ->
    find_event eventId w = Some ev ->
    minted eventId user (cuid (World.cuids w)) ticketTypeObj
      (Z.to_nat quantity) 0 (World.ticks w) = Some l ->
    has_ticketType (TicketType.id ticketTypeObj) w = false ->
    issue_outcome w user eventId price quantity ticketTypeObj None
      (mailed
         (persisted w (new_order w user eventId price quantity ticketTypeObj)
            l quantity)
         (email_of user
            (OrderWithEvent.mk
               (new_order w user eventId price quantity ticketTypeObj) ev) l)
         (sendTicketEmail (List.length (World.mails w))
            (email_of user
               (OrderWithEvent.mk
                  (new_order w user eventId price quantity ticketTypeObj) ev)
               l))).

(** A program run to its end without interference; [None] when an
    operation rejected (the program threw). *)
Fixpoint runProg {A} (p : Prog A) (w : World.t) : option A * World.t :=
  match p with
  | Ret a => (Some a, w)
  | Vis op k =>
      match exec op w with
      | (Some x, w') => runProg (k x) w'
      | (None, w') => (None, w')
      end
  end.

(** Lines 237-243: the [catch] block. *)
Definition caught : Response.t := error_response "Failed to create order" 500.

(** [POST] served alone. *)
Definition POST (request : Request.t) (w : World.t) : Response.t * World.t :=
  match runProg (POST_try request) w with
  | (Some response, w') => (response, w')
  | (None, w') => (caught, w')
  end.

(** *** Request-parallel execution *)

Inductive Task :=
| Running (p : Prog Response.t)
| Responded (r : Response.t).

(** The task runs up to and including its next awaited operation. *)
Definition step (t : Task) (w : World.t) : Task * World.t :=
  match t with
  | Responded r => (Responded r, w)
  | Running (Ret r) => (Responded r, w)
  | Running (Vis op k) =>
      match exec op w with
      | (Some x, w') => (Running (k x), w')
      | (None, w') => (Responded caught, w')
      end
  end.

Fixpoint set_nth {A} (n : nat) (x : A) (l : list A) : list A :=
  match l, n with
  | [], _ => []
  | _ :: rest, O => x :: rest
  | y :: rest, S n' => y :: set_nth n' x rest
  end.

(** The tasks advance in the order the schedule names them. *)
Fixpoint interleave (schedule : list nat) (tasks : list Task) (w : World.t)
    : list Task * World.t :=
  match schedule with
  | [] => (tasks, w)
  | i :: rest =>
      match nth_error tasks i with
      | Some t =>
          let '(t', w') := step t w in
          interleave rest (set_nth i t' tasks) w'
      | None => interleave rest tasks w
      end
  end.

End Collaborators.

(* ================================================================== *)
(** ** Credentials and the orders they are minted for *)

Section Credentials.

Variable cuid : nat -> string.
Variable generateQRCode : QRData.t -> option string.

(** Modelled from the spec: lib/qr-code ([generateQRCode]) is not among
    the sources.  The specification (4.2, 6) describes the credential as
    a payload "embedding event id, user id, order id, sequence number,
    issuance timestamp", "self-describing enough" to be resolved back:
    a credential is minted from one tuple only. *)
Definition credential_embeds_tuple : Prop :=
  forall d d' q,
    generateQRCode d = Some q -> generateQRCode d' = Some q -> d = d'.

(** The rows of [data] are the tickets number 1, 2, ... of order [o]:
    each carries the credential minted for this order and its number. *)
Definition batch_of (o : string) (data : list TicketData.t) : Prop :=
  forall j row,
    nth_error data j = Some row ->
    TicketData.orderId row = o /\
    exists d,
      generateQRCode d = Some (TicketData.qrCode row) /\
      QRData.orderId d = o /\
      QRData.ticketNumber d = Z.of_nat j + 1.

(** Bookkeeping for a running handler: [own] is the id of the order it
    has created and not yet written tickets for. *)

(** What an operation needs of the bookkeeping. *)
Definition op_pre {X} (op : Op X) (own : option string) : Prop :=
  match op with
  | TicketCreateMany data => exists o, own = Some o /\ batch_of o data
  | _ => True
  end.

(** What is known of the value an operation resolves to. *)
Definition op_result {X} (op : Op X) : X -> Prop :=
  match op in Op X return X -> Prop with
  | GenerateQRCode data => fun q => generateQRCode data = Some q
  | _ => fun _ => True
  end.

(** The bookkeeping after an operation. *)
Definition op_own {X} (op : Op X) (own : option string) : X -> option string :=
  match op in Op X return X -> option string with
  | OrderCreate _ => fun o => Some (Order.id (OrderWithEvent.order o))
  | TicketCreateMany _ => fun _ => None
  | _ => fun _ => own
  end.

(** The program writes tickets only in batches of an order it created
    itself, at most one batch per order; [Q] holds of what it returns. *)
Fixpoint mints {A} (own : option string) (p : Prog A)
    (Q : A -> option string -> Prop) : Prop :=
  match p with
  | Ret a => Q a own
  | Vis op k =>
      op_pre op own /\
      forall x, op_result op x -> mints (op_own op own x) (k x) Q
  end.

(** Every order id came from [cuid]; every ticket belongs to an order and
    its credential was minted from a tuple naming that order; no two
    tickets carry the same credential. *)
Definition world_ok (w : World.t) : Prop :=
  (forall o, In o (World.orders w) ->
             exists n, (n < World.cuids w)%nat /\ Order.id o = cuid n) /\
  (forall t, In t (World.tickets w) ->
             In (Ticket.orderId t) (map Order.id (World.orders w)) /\
             exists d, generateQRCode d = Some (Ticket.qrCode t) /\
                       QRData.orderId d = Ticket.orderId t) /\
  NoDup (map Ticket.qrCode (World.tickets w)).

(** The orders the running handlers hold are in the table, have no
    ticket yet, and are held by one handler each. *)
Definition owns_ok (w : World.t) (owns : list (option string)) : Prop :=
  (forall i o, nth_error owns i = Some (Some o) ->
               In o (map Order.id (World.orders w)) /\
               forall t, In t (World.tickets w) -> Ticket.orderId t <> o) /\
  (forall i j o, nth_error owns i = Some (Some o) ->
                 nth_error owns j = Some (Some o) -> i = j).

Definition tasks_ok (tasks : list Task) (owns : list (option string)) : Prop :=
  List.length owns = List.length tasks /\
  forall i p own,
    nth_error tasks i = Some (Running p) ->
    nth_error owns i = Some own ->
    mints own p (fun _ _ => True).

End Credentials.

(* ================================================================== *)
(** ** Predicates of the statements *)

(** An order row as the handler creates it from this line item. *)
Definition order_of_item (item : Item.t) (o : Order.t) : Prop :=
  Order.status o = OrderStatus.PENDING /\
  Order.paymentMethod o = None /\
  exists ticketTypeObj,
    Order.total o
    = orderTotal (Item.price item) ticketTypeObj (quantity_of item).


(* ================================================================== *)
(** ** A concrete instance

    Collaborators, rows and carts on which the handler is evaluated. *)

Definition Z_to_string (z : Z) : string :=
  NilZero.string_of_int (Z.to_int z).

(** A string preceded by its length. *)
Definition netstring (s : string) : string :=
  nat_to_string (String.length s) ++ ":" ++ s.

Module Scenario.

Definition ids (n : nat) : string := "c" ++ nat_to_string n.

Definition clock (n : nat) : Z := 1700000000000 + Z.of_nat n.

(** A code whose text carries the five fields, each with its length. *)
Definition payload (d : QRData.t) : string :=
  netstring (QRData.eventId d) ++ netstring (QRData.userId d)
  ++ netstring (QRData.orderId d)
  ++ netstring (Z_to_string (QRData.ticketNumber d))
  ++ netstring (Z_to_string (QRData.timestamp d)).

Definition qr (d : QRData.t) : option string :=
  Some ("data:image/png;base64," ++ payload d).

(** Every mail goes out. *)
Definition deliver (n : nat) (args : EmailArgs.t) : Delivery := Sent.

(** No mail goes out, and [sendTicketEmail] rejects. *)
Definition bounce (n : nat) (args : EmailArgs.t) : Delivery := Rejected.

(** No mail goes out, and [sendTicketEmail] resolves all the same. *)
Definition swallow (n : nat) (args : EmailArgs.t) : Delivery := Unsent.

Definition gala : Event.t :=
  Event.mk "e1" "Gala" None "music" "Accra" 1700000000000 1700003600000
    None 50%float 100 0 EventStatus.UPCOMING "u0".

Definition vip : TicketType.t :=
  TicketType.mk "t1" "VIP" 50%float 2 0 None "e1".

Definition standard : TicketType.t :=
  TicketType.mk "t2" "Standard" 20%float 98 0 None "e1".

Definition world : World.t :=
  World.mk [gala] [vip; standard] [] [] 0 0 [].

Definition alice : SessionUser.t :=
  SessionUser.mk "u1" (Some "Alice") (Some "alice@example.org").

Definition bob : SessionUser.t :=
  SessionUser.mk "u2" (Some "Bob") (Some "bob@example.org").

(** A line item for the gala's VIP type, addressed by name. *)
Definition vip_item (quantity : Z) : Item.t :=
  Item.mk (Some "e1") (Some quantity) None (Some "VIP") None.

Definition cart (user : SessionUser.t) (items : list Item.t) : Request.t :=
  Request.mk (Some user) (Some (Body.mk (Some items) JNull JNull JNull)).

(** The gala with one of its two VIP tickets sold. *)
Definition one_left : World.t :=
  World.mk [Event.set_soldTickets 1 gala]
    [TicketType.set_soldCount 1 vip; standard] [] [] 0 0 [].

(** Two handlers: the first runs up to its reading of the event and its
    ticket types, the second runs to its response, then the first
    resumes. *)
Definition stale_read : list nat :=
  (repeat 0%nat 3 ++ repeat 1%nat 11 ++ repeat 0%nat 8)%list.

(** A VIP line item with a price of its own. *)
Definition priced_item (quantity : Z) (price : float) : Item.t :=
  Item.mk (Some "e1") (Some quantity) None (Some "VIP") (Some price).

(** A line item naming a ticket type the gala does not have. *)
Definition gold_item : Item.t :=
  Item.mk (Some "e1") (Some 1) None (Some "Gold") None.



End Scenario.

(* ================================================================== *)
(** ** Further predicates: carts, tables, mails *)

(** No comma in the string. *)
Fixpoint comma_free (s : string) : bool :=
  match s with
  | EmptyString => true
  | String c r => negb (Ascii.eqb c ",") && comma_free r
  end.

(** The row [b] is the row [a] but, at most, for its counter. *)
Definition same_event_but_sold (a b : Event.t) : Prop :=
  Event.set_soldTickets (Event.soldTickets a) b = a.

Definition same_type_but_sold (a b : TicketType.t) : Prop :=
  TicketType.set_soldCount (TicketType.soldCount a) b = a.

(** From [w] to [w'] the event and ticket-type tables keep their rows, in
    place, but for the counters, and the order and ticket tables are
    extended at the end. *)
Definition grown (w w' : World.t) : Prop :=
  Forall2 same_event_but_sold (World.events w) (World.events w') /\
  Forall2 same_type_but_sold (World.ticketTypes w) (World.ticketTypes w') /\
  (exists new, World.orders w' = (World.orders w ++ new)%list) /\
  (exists new, World.tickets w' = (World.tickets w ++ new)%list).

(** From [w] to [w'] the rows of the two counted tables stay in place
    and no counter is lower. *)
Definition counters_grow (w w' : World.t) : Prop :=
  Forall2 (fun a b => TicketType.id a = TicketType.id b /\
                      TicketType.soldCount a <= TicketType.soldCount b)
    (World.ticketTypes w) (World.ticketTypes w') /\
  Forall2 (fun a b => Event.id a = Event.id b /\
                      Event.soldTickets a <= Event.soldTickets b)
    (World.events w) (World.events w').

(** The operation increments by a count. *)
Definition op_counts {X} (op : Op X) : Prop :=
  match op with
  | TicketTypeIncrementSoldCount _ n => 0 <= n
  | EventIncrementSoldTickets _ n => 0 <= n
  | _ => True
  end.

(** What the value an operation resolves to is known to be, whatever the
    world: [request.json()] resolves to the body of the request. *)
Definition op_yields {X} (op : Op X) : X -> Prop :=
  match op in Op X return X -> Prop with
  | RequestJson request => fun body => Request.body request = Some body
  | _ => fun _ => True
  end.

(** Every increment the program can come to is by a count. *)
Fixpoint counting {A} (p : Prog A) : Prop :=
  match p with
  | Ret _ => True
  | Vis op k => op_counts op /\ forall x, op_yields op x -> counting (k x)
  end.

Definition task_counting (t : Task) : Prop :=
  match t with
  | Running p => counting p
  | Responded _ => True
  end.



(** Every line item of the request's cart has a quantity of 0 or more
    (1 when it has none). *)
Definition counted_cart (request : Request.t) : Prop :=
  forall body items,
    Request.body request = Some body ->
    Body.items body = Some items ->
    Forall (fun item => 0 <= quantity_of item) items.


Section Carts.

Variable cuid : nat -> string.
Variable Date_now : nat -> Z.
Variable generateQRCode : QRData.t -> option string.
Variable sendTicketEmail : nat -> EmailArgs.t -> Delivery.

(** The loop body goes through for each of the items in turn, from world
    [w] to world [w'], pushing these orders. *)
Inductive all_through (user : SessionUser.t)
    : list Item.t -> World.t -> list OrderWithEvent.t -> World.t -> Prop :=
| through_nil w : all_through user [] w [] w
| through_cons item items w c w1 cs w2 :
    runProg cuid Date_now generateQRCode sendTicketEmail
      (POST_item user item) w = (Some (inr c), w1) ->
    all_through user items w1 cs w2 ->
    all_through user (item :: items) w (c :: cs) w2.

End Carts.

(* ================================================================== *)
(** ** The handler (app/api/orders/route.ts, GET)

    The handler reads and never writes.  It is modelled served alone:
    its two queries, [findMany] and [count], read the same world. *)

From Stdlib Require Import Permutation.

Module GetRequest.
(** [session] is what [getServerSession] resolves to; [limit], [page] and
    [status] are what [searchParams.get] returns for the three query
    parameters, [None] for [null]. *)
Record t := mk {
  session : option SessionUser.t;
  limit : option string;
  page : option string;
  status : option string
}.
End GetRequest.

Module Where.
(** Lines 20-23; [status] is [None] when the key is not spread in. *)
Record t := mk { userId : string; status : option string }.
End Where.

Module EventSummary.
(** Lines 28-37: the selected fields of the event. *)
Record t := mk {
  id : string;
  title : string;
  startDate : Z;
  endDate : Z;
  location : string;
  mainImage : option string
}.
End EventSummary.

Module TicketWithType.
(** Lines 38-42: a ticket with its ticket type ([None] for [null]). *)
Record t := mk { ticket : Ticket.t; ticketType : option TicketType.t }.
End TicketWithType.

Module OrderListing.
(** An element of [orders]: the order row with its two relations. *)
Record t := mk {
  order : Order.t;
  event : option EventSummary.t;
  tickets : list TicketWithType.t
}.
End OrderListing.

Module Pagination.
(** Lines 55-60 as serialised: a number that is [NaN] or infinite is
    written [null], here [None]. *)
Record t := mk {
  page : option Z;
  limit : option Z;
  total : Z;
  pages : option Z
}.
End Pagination.

(** What the handler answers: the listing (status 200) or one of its
    error responses. *)
Inductive GetResponse :=
| Listed (orders : list OrderListing.t) (pagination : Pagination.t)
| Refused (response : Response.t).

(** [s || d] for what [searchParams.get] returned. *)
Definition or_default (s : option string) (d : string) : string :=
  match s with
  | Some x => if String.eqb x "" then d else x
  | None => d
  end.

(** Lines 20-23: [{ userId, ...(status && { status }) }]. *)
Definition where_of (user : SessionUser.t) (status : option string)
    : Where.t :=
  Where.mk (SessionUser.id user) (if truthy_str status then status else None).

(** Line 48: [(page - 1) * limit], [NaN] when either is. *)
Definition skip_of (page limit : option Z) : option Z :=
  match page, limit with
  | Some p, Some l => Some ((p - 1) * l)
  | _, _ => None
  end.

(** Line 59: [Math.ceil(total / limit)]; the division by 0 and the
    division by [NaN] give a number written [null]. *)
Definition pages_of (total : Z) (limit : option Z) : option Z :=
  match limit with
  | None => None
  | Some 0 => None
  | Some l => Some (- ((- total) / l))
  end.

Definition OrderStatus_all : list OrderStatus.t :=
  [OrderStatus.PENDING; OrderStatus.COMPLETED; OrderStatus.CANCELLED;
   OrderStatus.REFUNDED].

(** The string names a value of the enum [OrderStatus]. *)
Definition is_status (s : string) : bool :=
  existsb (fun st => String.eqb (OrderStatus.to_string st) s) OrderStatus_all.

(** The order row satisfies the [where] of the two queries. *)
Definition matches (where_ : Where.t) (o : Order.t) : bool :=
  String.eqb (Order.userId o) (Where.userId where_) &&
  match Where.status where_ with
  | Some s => String.eqb (OrderStatus.to_string (Order.status o)) s
  | None => true
  end.

(** The [where] is one Prisma filters by: the status, when there is one,
    names a value of the enum. *)
Definition regular_where (where_ : Where.t) : bool :=
  match Where.status where_ with
  | Some s => is_status s
  | None => true
  end.

(** A value Prisma takes for [take] and [skip] with the plain meaning:
    a count within 32 bits. *)
Definition is_count (z : Z) : bool := (0 <=? z) && (z <=? 2147483647).

Definition summary (e : Event.t) : EventSummary.t :=
  EventSummary.mk (Event.id e) (Event.title e) (Event.startDate e)
    (Event.endDate e) (Event.location e) (Event.mainImage e).

(** [include: { ticketType: true }] on a ticket. *)
Definition with_type (w : World.t) (t : Ticket.t) : TicketWithType.t :=
  TicketWithType.mk t
    (match Ticket.ticketTypeId t with
     | Some id => find_ticketType id w
     | None => None
     end).

(** Lines 27-43: the order row with the event and the tickets that
    reference it. *)
Definition listing (w : World.t) (o : Order.t) : OrderListing.t :=
  OrderListing.mk o
    (option_map summary (find_event (Order.eventId o) w))
    (map (with_type w)
       (filter (fun t => String.eqb (Ticket.orderId t) (Order.id o))
          (World.tickets w))).

Definition fetch_failed : Response.t :=
  error_response "Failed to fetch orders" 500.

Section Listing.

(** [Number.parseInt] on a string: the integer it returns, [None] for
    [NaN].  (Numerals too long for a double to hold exactly are outside
    the model.) *)
Variable parseInt : string -> option Z.
(** [orderBy: { createdAt: "desc" }]: the arrangement of these rows by
    their time of creation, newest first. *)
Variable newest_first : list Order.t -> list Order.t.
(** What [findMany] and [count] resolve to ([None] when they reject)
    outside the values Prisma takes with the plain meaning: a [take] or
    [skip] that is [NaN], negative or beyond 32 bits, a [status] that
    names no value of the enum. *)
Variable irregular_findMany :
  World.t -> Where.t -> option Z -> option Z -> option (list OrderListing.t).
Variable irregular_count : World.t -> Where.t -> option Z.

(** Lines 25-49: [prisma.order.findMany]. *)
Definition findMany (w : World.t) (where_ : Where.t) (take skip : option Z)
    : option (list OrderListing.t) :=
  match take, skip with
  | Some t, Some s =>
      if regular_where where_ && is_count t && is_count s then
        Some (map (listing w)
                (firstn (Z.to_nat t)
                   (skipn (Z.to_nat s)
                      (newest_first
                         (filter (matches where_) (World.orders w))))))
      else irregular_findMany w where_ take skip
  | _, _ => irregular_findMany w where_ take skip
  end.

(** Line 51: [prisma.order.count]. *)
Definition count (w : World.t) (where_ : Where.t) : option Z :=
  if regular_where where_ then
    Some (Z.of_nat (List.length (filter (matches where_) (World.orders w))))
  else irregular_count w where_.

(** Lines 8-69. *)
Definition GET (request : GetRequest.t) (w : World.t) : GetResponse :=
  match GetRequest.session request with
  | Some user =>
      if truthy_str (Some (SessionUser.id user)) then
        let limit := parseInt (or_default (GetRequest.limit request) "10") in
        let page := parseInt (or_default (GetRequest.page request) "1") in
        let status := GetRequest.status request in
        let where_ := where_of user status in
        match findMany w where_ limit (skip_of page limit) with
        | Some orders =>
            match count w where_ with
            | Some total =>
                Listed orders
                  (Pagination.mk page limit total (pages_of total limit))
            | None => Refused fetch_failed
            end
        | None => Refused fetch_failed
        end
      else Refused (error_response "Unauthorized" 401)
  | None => Refused (error_response "Unauthorized" 401)
  end.

(** A query inside the values of the model: the limit is [L], the page is
    [P], both give counts for [take] and [skip], and the status, when
    there is one, names a value of the enum. *)
Definition regular_query (request : GetRequest.t) (L P : Z) : Prop :=
  parseInt (or_default (GetRequest.limit request) "10") = Some L /\
  parseInt (or_default (GetRequest.page request) "1") = Some P /\
  0 <= L <= 2147483647 /\
  0 <= (P - 1) * L <= 2147483647 /\
  (forall s, GetRequest.status request = Some s -> s <> "" ->
             is_status s = true).

(** The orders of a response, none for an error response. *)
Definition orders_of (r : GetResponse) : list OrderListing.t :=
  match r with
  | Listed orders _ => orders
  | Refused _ => []
  end.

End Listing.

(* ================================================================== *)
(** ** Further instances

    Carts, collaborators and queries on which the theorems on purchases
    and listings are evaluated. *)

Module Cases.

Import Scenario.

(** A line item for the gala's Standard type, addressed by its id. *)
Definition standard_item (quantity : Z) : Item.t :=
  Item.mk (Some "e1") (Some quantity) (Some "t2") None None.

(** A line item without an event, and one for an event there is not. *)
Definition stray_item : Item.t := Item.mk None (Some 1) None None None.

Definition ghost_item : Item.t :=
  Item.mk (Some "e9") (Some 1) None None None.

(** A generator that rejects the second ticket of every order. *)
Definition smudged (d : QRData.t) : option string :=
  if QRData.ticketNumber d =? 2 then None else qr d.

(** The world after these requests were served in turn. *)
Definition after (requests : list Request.t) : World.t :=
  fold_left (fun w request => snd (POST ids clock qr deliver request w))
    requests world.

(** Alice has bought three times, Bob once. *)
Definition busy : World.t :=
  after [cart alice [vip_item 1]; cart bob [standard_item 3];
         cart alice [standard_item 2]; cart alice [vip_item 1]].

(** A reading of decimal numerals, as [parseInt] reads them. *)
Definition parse (s : string) : option Z :=
  option_map Z.of_int (NilZero.int_of_string s).

(** Rows are kept in the order of their creation. *)
Definition newest (rows : list Order.t) : list Order.t := rev rows.

Definition no_listing (w : World.t) (where_ : Where.t)
    (take skip : option Z) : option (list OrderListing.t) := None.

Definition no_count (w : World.t) (where_ : Where.t) : option Z := None.

Definition query (user : SessionUser.t) (limit page status : option string)
    : GetRequest.t :=
  GetRequest.mk (Some user) limit page status.

(** Two tickets as the minting loop pushes them, the first with a data
    URL for a code and the second with a bare text. *)
Definition pushed : list TicketData.t :=
  [TicketData.mk "data:image/png;base64,iVBORw0KGgo=" "VIP" 50%float
     "e1" "u1" "c0" "t1";
   TicketData.mk "iVBORw0KGgo=" "VIP" 50%float "e1" "u1" "c0" "t1"].

End Cases.

(* ================================================================== *)
(** ** Sequential behaviour of programs *)

Section Sequential.

Variable cuid : nat -> string.
Variable Date_now : nat -> Z.
Variable generateQRCode : QRData.t -> option string.
Variable sendTicketEmail : nat -> EmailArgs.t -> Delivery.

#[local] Abbreviation run := (runProg cuid Date_now generateQRCode sendTicketEmail).
#[local] Abbreviation exec' := (exec cuid Date_now generateQRCode sendTicketEmail).
#[local] Abbreviation minted' := (minted Date_now generateQRCode).
#[local] Abbreviation new_order' := (new_order cuid).
#[local] Abbreviation issued' := (issued cuid sendTicketEmail).
#[local] Abbreviation POST' :=
  (POST cuid Date_now generateQRCode sendTicketEmail).
#[local] Abbreviation issue_outcome' :=
  (issue_outcome cuid Date_now generateQRCode sendTicketEmail).

Lemma run_bind {A B} (p : Prog A) (f : A -> Prog B) (w : World.t) :
  run (bind p f) w =
  match run p w with
  | (Some a, w') => run (f a) w'
  | (None, w') => (None, w')
  end.
Proof.
  revert w. induction p as [a | X op k IH]; intro w; simpl.
  - reflexivity.
  - destruct (exec' op w) as [[x |] w']; [apply IH | reflexivity].
Qed.

Lemma tick_by_0 (w : World.t) : tick_by 0 w = w.
Proof.
  destruct w; unfold tick_by; simpl. now rewrite Nat.add_0_r.
Qed.

Lemma run_mintTickets eventId user orderId ticketTypeObj :
  forall todo i acc w l,
    minted' eventId user orderId ticketTypeObj todo i (World.ticks w) = Some l ->
    run (mintTickets eventId user orderId ticketTypeObj todo i acc) w
    = (Some (acc ++ l)%list, tick_by todo w).
Proof.
  induction todo as [| todo IH]; intros i acc w l Hm; simpl in Hm.
  - injection Hm as <-. simpl. now rewrite app_nil_r, tick_by_0.
  - simpl.
    destruct (generateQRCode _) as [q |] eqn:Hq; [| discriminate].
    destruct (minted' _ _ _ _ todo (i + 1) (S (World.ticks w)))
      as [rest |] eqn:Hr; [| discriminate].
    injection Hm as <-.
    rewrite (IH (i + 1) _ _ rest); [| exact Hr].
    rewrite <- app_assoc. simpl. f_equal.
    unfold tick_by; simpl. f_equal. lia.
Qed.

Lemma minted_length eventId user orderId ticketTypeObj :
  forall todo i tick l,
    minted' eventId user orderId ticketTypeObj todo i tick = Some l ->
    List.length l = todo.
Proof.
  induction todo as [| todo IH]; intros i tick l Hm; simpl in Hm.
  - now injection Hm as <-.
  - destruct (generateQRCode _); [| discriminate].
    destruct (minted' _ _ _ _ todo _ _) as [rest |] eqn:Hr; [| discriminate].
    injection Hm as <-. simpl. f_equal. eapply IH; eauto.
Qed.

Lemma minted_refs eventId user orderId ticketTypeObj :
  forall todo i tick l,
    minted' eventId user orderId ticketTypeObj todo i tick = Some l ->
    Forall (fun d =>
              TicketData.orderId d = orderId /\
              TicketData.eventId d = eventId /\
              TicketData.userId d = SessionUser.id user /\
              TicketData.ticketTypeId d = TicketType.id ticketTypeObj) l.
Proof.
  induction todo as [| todo IH]; intros i tick l Hm; simpl in Hm.
  - injection Hm as <-. constructor.
  - destruct (generateQRCode _); [| discriminate].
    destruct (minted' _ _ _ _ todo _ _) as [rest |] eqn:Hr; [| discriminate].
    injection Hm as <-. constructor; [simpl; auto | eapply IH; eauto].
Qed.


Lemma run_issue_ok w user eventId price quantity ticketTypeObj ev l :
  find_event eventId w = Some ev ->
  has_ticketType (TicketType.id ticketTypeObj) w = true ->
  quantity <= TicketType.quantity ticketTypeObj
              - TicketType.soldCount ticketTypeObj ->
  minted' eventId user
    (cuid (World.cuids w)) ticketTypeObj (Z.to_nat quantity) 0
    (World.ticks w) = Some l ->
  resolves
    (sendTicketEmail (List.length (World.mails w))
       (email_of user
          (OrderWithEvent.mk
             (new_order' w user eventId price quantity ticketTypeObj) ev) l))
  = true ->
  run (issue user eventId price quantity ticketTypeObj) w
  = (Some (inr (OrderWithEvent.mk
                  (new_order' w user eventId price quantity ticketTypeObj) ev)),
     issued' w user eventId price quantity ticketTypeObj ev l).
Proof.
  intros Hev Hhas Hq Hm Hsend. unfold issue.
  destruct (Z.ltb_spec
              (TicketType.quantity ticketTypeObj
               - TicketType.soldCount ticketTypeObj) quantity) as [Hlt | _];
    [lia |].
  cbn [bind await run runProg exec]. cbn [OrderData.eventId].
  rewrite Hev. cbn [OrderData.total OrderData.userId OrderData.eventId].
  rewrite run_bind.
  cbn [OrderWithEvent.order Order.id].
  erewrite run_mintTickets by (cbn [World.ticks]; exact Hm).
  cbn [app bind await run runProg exec tick_by World.mails World.events
       World.ticketTypes World.orders World.tickets World.cuids World.ticks].
  unfold new_order in Hsend. rewrite Hsend.
  unfold has_ticketType in *. cbn [World.ticketTypes]. rewrite Hhas.
  unfold find_event in *. cbn [World.events]. rewrite Hev.
  reflexivity.
Qed.

Lemma run_issue_undelivered w user eventId price quantity ticketTypeObj ev l :
  find_event eventId w = Some ev ->
  quantity <= TicketType.quantity ticketTypeObj
              - TicketType.soldCount ticketTypeObj ->
  minted' eventId user
    (cuid (World.cuids w)) ticketTypeObj (Z.to_nat quantity) 0
    (World.ticks w) = Some l ->
  sendTicketEmail (List.length (World.mails w))
    (email_of user
       (OrderWithEvent.mk
          (new_order' w user eventId price quantity ticketTypeObj) ev) l)
  = Rejected ->
  run (issue user eventId price quantity ticketTypeObj) w
  = (None,
     mailed
       (persisted cuid w
          (new_order' w user eventId price quantity ticketTypeObj)
          l quantity)
       (email_of user
          (OrderWithEvent.mk
             (new_order' w user eventId price quantity ticketTypeObj) ev) l)
       Rejected).
Proof.
  intros Hev Hq Hm Hsend. unfold issue.
  destruct (Z.ltb_spec
              (TicketType.quantity ticketTypeObj
               - TicketType.soldCount ticketTypeObj) quantity) as [Hlt | _];
    [lia |].
  cbn [bind await run runProg exec]. cbn [OrderData.eventId].
  rewrite Hev. cbn [OrderData.total OrderData.userId OrderData.eventId].
  rewrite run_bind.
  cbn [OrderWithEvent.order Order.id].
  erewrite run_mintTickets by (cbn [World.ticks]; exact Hm).
  cbn [app bind await run runProg exec tick_by World.mails World.events
       World.ticketTypes World.orders World.tickets World.cuids World.ticks].
  unfold new_order in Hsend. rewrite Hsend.
  reflexivity.
Qed.

(** *** Facts about the tables *)

Lemma resolveTicketType_In event ticketTypeId ticketType t :
  resolveTicketType event ticketTypeId ticketType = inr t ->
  In t (EventWithTypes.ticketTypes event).
Proof.
  unfold resolveTicketType.
  destruct (truthy_str ticketTypeId).
  - destruct (find _ _) as [t' |] eqn:Hf; [| discriminate].
    intros [= <-]. now apply find_some in Hf.
  - destruct (truthy_str ticketType).
    + destruct (find _ _) as [t' |] eqn:Hf; [| discriminate].
      intros [= <-]. now apply find_some in Hf.
    + destruct (EventWithTypes.ticketTypes event) as [| t' rest];
        [discriminate |].
      simpl. intros [= <-]. now left.
Qed.

Lemma types_of_event_In id w t :
  In t (types_of_event id w) ->
  In t (World.ticketTypes w) /\ TicketType.eventId t = id.
Proof.
  unfold types_of_event. intros H. apply filter_In in H as [Hin Heq].
  split; [exact Hin | now apply String.eqb_eq].
Qed.

Lemma has_ticketType_In t w :
  In t (World.ticketTypes w) -> has_ticketType (TicketType.id t) w = true.
Proof.
  intros Hin. unfold has_ticketType. apply existsb_exists.
  exists t. split; [exact Hin | apply String.eqb_refl].
Qed.



Lemma find_increment_soldTickets id n rows :
  find (fun x => String.eqb (Event.id x) id)
    (increment_soldTickets id n rows)
  = option_map (fun e => Event.set_soldTickets (Event.soldTickets e + n) e)
      (find (fun x => String.eqb (Event.id x) id) rows).
Proof.
  induction rows as [| r rows IH]; [reflexivity |]. simpl.
  destruct (String.eqb (Event.id r) id) eqn:E; simpl.
  - now rewrite E.
  - now rewrite E.
Qed.

Lemma mapi_length {A B} (f : A -> nat -> B) xs :
  forall start, List.length (mapi f start xs) = List.length xs.
Proof.
  induction xs as [| x xs IH]; intro start; simpl; [| rewrite IH]; reflexivity.
Qed.

Lemma mapi_Forall {A B} (f : A -> nat -> B) (P : A -> Prop) (Q : B -> Prop) xs :
  (forall x n, P x -> Q (f x n)) ->
  Forall P xs -> forall start, Forall Q (mapi f start xs).
Proof.
  intros Hf HP. induction HP as [| x xs Hx _ IH]; intro start; simpl;
    constructor; auto.
Qed.

(** The loop body on an item whose event and ticket type resolve. *)
Lemma run_POST_item_resolved w user item eventId ev ticketTypeObj :
  Item.eventId item = Some eventId ->
  eventId <> "" ->
  find_event eventId w = Some ev ->
  resolveTicketType (EventWithTypes.mk ev (types_of_event eventId w))
    (Item.ticketTypeId item) (Item.ticketType item) = inr ticketTypeObj ->
  run (POST_item user item) w
  = run (issue user eventId (Item.price item) (quantity_of item)
           ticketTypeObj) w.
Proof.
  intros Heid Hne Hev Hres. unfold POST_item. rewrite Heid.
  assert (Ht : truthy_str (Some eventId) = true).
  { simpl. now destruct (String.eqb_spec eventId ""). }
  rewrite Ht. cbn [bind await run runProg exec]. rewrite Hev.
  now rewrite Hres.
Qed.

(** *** Inversion of the loop body *)

Lemma run_mintTickets_rejects eventId user orderId ticketTypeObj :
  forall todo i acc w,
    minted' eventId user orderId ticketTypeObj todo i (World.ticks w) = None ->
    exists n,
      run (mintTickets eventId user orderId ticketTypeObj todo i acc) w
      = (None, tick_by n w).
Proof.
  induction todo as [| todo IH]; intros i acc w Hm; simpl in Hm;
    [discriminate |].
  simpl. destruct (generateQRCode _) as [q |] eqn:Hq.
  - destruct (minted' _ _ _ _ todo (i + 1) (S (World.ticks w)))
      as [rest |] eqn:Hr; [discriminate |].
    edestruct (IH (i + 1)) as [n Hn]; [| rewrite Hn].
    + cbn [World.ticks]. exact Hr.
    + exists (S n). unfold tick_by; simpl. do 2 f_equal. lia.
  - exists 1%nat. unfold tick_by; simpl. do 2 f_equal. lia.
Qed.

Lemma run_issue_outcome w user eventId price quantity ticketTypeObj r w' :
  run (issue user eventId price quantity ticketTypeObj) w = (r, w') ->
  issue_outcome' w user eventId price quantity ticketTypeObj r w'.
Proof.
  unfold issue.
  destruct (Z.ltb_spec
              (TicketType.quantity ticketTypeObj
               - TicketType.soldCount ticketTypeObj) quantity) as [Hlt | Hge].
  { intros [= <- <-]. now constructor. }
  cbn [bind await run runProg exec]. cbn [OrderData.eventId].
  destruct (find_event eventId w) as [ev |] eqn:Hev;
    [| intros [= <- <-]; now apply issue_no_event].
  cbn [OrderData.total OrderData.userId OrderData.eventId].
  rewrite run_bind. cbn [OrderWithEvent.order Order.id].
  destruct (minted' eventId user (cuid (World.cuids w)) ticketTypeObj
              (Z.to_nat quantity) 0 (World.ticks w)) as [l |] eqn:Hm.
  2:{ edestruct run_mintTickets_rejects as [n Hn];
        [| rewrite Hn; intros [= <- <-];
           exact (issue_mint_rejected cuid Date_now generateQRCode
                    sendTicketEmail w user eventId price quantity
                    ticketTypeObj ev n Hge Hev Hm)].
      cbn [World.ticks]. exact Hm. }
  erewrite run_mintTickets by (cbn [World.ticks]; exact Hm).
  cbn [app bind await run runProg exec tick_by World.mails World.events
       World.ticketTypes World.orders World.tickets World.cuids World.ticks].
  destruct (resolves (sendTicketEmail _ _)) eqn:Hsend.
  2:{ intros [= <- <-].
      assert (Hrej : forall d, resolves d = false -> d = Rejected)
        by (intros []; simpl; congruence).
      apply Hrej in Hsend. rewrite Hsend.
      exact (issue_undelivered cuid Date_now generateQRCode sendTicketEmail
               w user eventId price quantity ticketTypeObj ev l
               Hge Hev Hm Hsend). }
  unfold has_ticketType at 1. cbn [World.ticketTypes].
  destruct (existsb _ (World.ticketTypes w)) eqn:Hhas.
  2:{ intros [= <- <-].
      exact (issue_no_ticketType cuid Date_now generateQRCode sendTicketEmail
               w user eventId price quantity ticketTypeObj ev l
               Hge Hev Hm Hhas). }
  unfold find_event at 1. cbn [World.events].
  pose proof Hev as Hev'. unfold find_event in Hev'. rewrite Hev'.
  intros [= <- <-].
  exact (issue_through cuid Date_now generateQRCode sendTicketEmail
           w user eventId price quantity ticketTypeObj ev l
           Hev Hhas Hge Hm Hsend).
Qed.

Lemma resolveTicketType_status event ticketTypeId ticketType response :
  resolveTicketType event ticketTypeId ticketType = inl response ->
  Response.status response = 404 \/ Response.status response = 400.
Proof.
  unfold resolveTicketType.
  destruct (truthy_str ticketTypeId).
  - destruct (find _ _); [discriminate |]. intros [= <-]. now left.
  - destruct (truthy_str ticketType).
    + destruct (find _ _); [discriminate |]. intros [= <-]. now right.
    + destruct (hd_error _); [discriminate |]. intros [= <-]. now right.
Qed.

(** The loop body either returns early on a check that precedes every
    write, with status 400 or 404 and the world untouched, or it runs
    [issue] on the resolved ticket type. *)
Lemma run_POST_item_cases w user item r w' :
  run (POST_item user item) w = (r, w') ->
  (exists response,
      r = Some (inl response) /\ w' = w /\
      (Response.status response = 400 \/ Response.status response = 404)) \/
  (exists eventId ev ticketTypeObj,
      Item.eventId item = Some eventId /\ eventId <> "" /\
      find_event eventId w = Some ev /\
      resolveTicketType (EventWithTypes.mk ev (types_of_event eventId w))
        (Item.ticketTypeId item) (Item.ticketType item) = inr ticketTypeObj /\
      issue_outcome' w user eventId (Item.price item) (quantity_of item)
        ticketTypeObj r w').
Proof.
  unfold POST_item.
  destruct (Item.eventId item) as [eventId |] eqn:Heid.
  2:{ intros [= <- <-]. left. eexists. repeat split. now left. }
  destruct (truthy_str (Some eventId)) eqn:Ht.
  2:{ intros [= <- <-]. left. eexists. repeat split. now left. }
  cbn [bind await run runProg exec].
  destruct (find_event eventId w) as [ev |] eqn:Hev.
  2:{ intros [= <- <-]. left. eexists. repeat split. now right. }
  destruct (resolveTicketType _ _ _) as [response | ticketTypeObj] eqn:Hres.
  { intros [= <- <-]. left. eexists. repeat split.
    apply resolveTicketType_status in Hres. tauto. }
  intros Hrun. right. exists eventId, ev, ticketTypeObj.
  repeat split; auto.
  - intros ->. discriminate.
  - now apply run_issue_outcome.
Qed.

(** *** C1 *)


(** *** C2 *)

(** C2.  A line item whose quantity exceeds the availability of its
    ticket type is refused with the 400 response "Not enough tickets
    available" and leaves the world as it found it: no order, no
    ticket, no change of [soldCount] or [soldTickets].  The loop stops
    there with that response. *)
Theorem oversized_item_refused w user item rest createdOrders
    eventId ev ticketTypeObj :
  Item.eventId item = Some eventId ->
  eventId <> "" ->
  find_event eventId w = Some ev ->
  resolveTicketType (EventWithTypes.mk ev (types_of_event eventId w))
    (Item.ticketTypeId item) (Item.ticketType item) = inr ticketTypeObj ->
  TicketType.quantity ticketTypeObj - TicketType.soldCount ticketTypeObj
    < quantity_of item ->
  run (POST_item user item) w
  = (Some (inl (error_response "Not enough tickets available" 400)), w) /\
  run (POST_items user (item :: rest) createdOrders) w
  = (Some (error_response "Not enough tickets available" 400), w).
Proof.
  intros Heid Hne Hev Hres Hlt.
  assert (H : run (POST_item user item) w
              = (Some (inl (error_response "Not enough tickets available" 400)), w)).
  { rewrite (run_POST_item_resolved _ _ _ _ _ _ Heid Hne Hev Hres).
    unfold issue. apply Z.ltb_lt in Hlt. now rewrite Hlt. }
  split; [exact H |].
  cbn [POST_items]. rewrite run_bind, H. reflexivity.
Qed.

(** *** What a request writes to the order table *)

Lemma run_POST_item_orders w user item r w' :
  run (POST_item user item) w = (r, w') ->
  exists new,
    World.orders w' = (World.orders w ++ new)%list /\
    Forall (order_of_item item) new /\
    match r with
    | Some (inr c) => new = [OrderWithEvent.order c]
    | Some (inl response) => new = [] /\ Response.status response <> 201
    | None => True
    end.
Proof.
  intros Hrun. apply run_POST_item_cases in Hrun
    as [(response & -> & -> & Hst)
       | (eventId & ev & ticketTypeObj & _ & _ & _ & _ & Hout)].
  - exists []. rewrite app_nil_r. repeat split; [constructor | lia].
  - assert (Hnew : order_of_item item
             (new_order' w user eventId (Item.price item) (quantity_of item)
                ticketTypeObj)).
    { repeat split. now exists ticketTypeObj. }
    destruct Hout.
    + exists []. rewrite app_nil_r. repeat split; [constructor | cbn; lia].
    + eexists [_]. repeat split. now constructor.
    + exists []. rewrite app_nil_r. repeat split. constructor.
    + eexists [_]. repeat split. now constructor.
    + eexists [_]. repeat split. now constructor.
    + eexists [_]. repeat split. now constructor.
Qed.

Lemma run_POST_items_orders user :
  forall items createdOrders w r w',
    run (POST_items user items createdOrders) w = (r, w') ->
    exists new,
      World.orders w' = (World.orders w ++ new)%list /\
      Forall (fun o => exists item, In item items /\ order_of_item item o)
        new /\
      forall response,
        r = Some response -> Response.status response = 201 ->
        exists created,
          response = created_response (createdOrders ++ created) /\
          new = map OrderWithEvent.order created /\
          List.length created = List.length items.
Proof.
  induction items as [| item rest IH]; intros createdOrders w r w' Hrun.
  - cbn in Hrun. injection Hrun as <- <-.
    exists []. rewrite app_nil_r. repeat split; [constructor |].
    intros response [= <-] _. exists []. now rewrite app_nil_r.
  - cbn [POST_items] in Hrun. rewrite run_bind in Hrun.
    destruct (run (POST_item user item) w) as [ri wi] eqn:Hi.
    apply run_POST_item_orders in Hi as (newi & Hoi & Hfi & Hri).
    assert (Hfi' : Forall (fun o => exists it, In it (item :: rest)
                                     /\ order_of_item it o) newi).
    { eapply Forall_impl; [| exact Hfi].
      intros o Ho. exists item. split; [now left | exact Ho]. }
    destruct ri as [[response | c] |].
    + cbn in Hrun. injection Hrun as <- <-. destruct Hri as [-> Hst].
      exists []. rewrite app_nil_r in *. repeat split; auto.
      intros response' [= <-] H201. contradiction.
    + apply IH in Hrun as (new & Ho & Hf & Hr). subst newi.
      exists (OrderWithEvent.order c :: new). repeat split.
      * rewrite Ho, Hoi, <- app_assoc. reflexivity.
      * constructor.
        -- now inversion Hfi'.
        -- eapply Forall_impl; [| exact Hf].
           intros o (it & Hin & Hit). exists it. split; [now right | exact Hit].
      * intros response Hresp H201.
        destruct (Hr response Hresp H201) as (created & -> & -> & Hlen).
        exists (c :: created).
        split; [| split; [reflexivity | simpl; lia]].
        now rewrite <- app_assoc.
    + injection Hrun as <- <-. exists newi. repeat split; auto.
      intros response [=].
Qed.

(** *** C6 *)

(** C6 (as amended).  The total of the order a line item creates is the
    unit price times the quantity, where the unit price is the cart's
    [price] when that is truthy (supplied, and neither zero nor NaN) and
    otherwise the price of the ticket type resolved for the item among
    the types of the event the item names.  However the loop body ends,
    the order table gains at most this one order, for that event, and a
    body that goes through returns it. *)
Theorem order_total_uses_truthy_price w user item r w' :
  run (POST_item user item) w = (r, w') ->
  exists new,
    World.orders w' = (World.orders w ++ new)%list /\
    (forall c, r = Some (inr c) -> new = [OrderWithEvent.order c]) /\
    Forall (fun o =>
              new = [o] /\
              exists eventId ev ticketTypeObj,
                Item.eventId item = Some eventId /\
                Order.eventId o = eventId /\
                find_event eventId w = Some ev /\
                resolveTicketType
                  (EventWithTypes.mk ev (types_of_event eventId w))
                  (Item.ticketTypeId item) (Item.ticketType item)
                = inr ticketTypeObj /\
                Order.total o
                = PrimFloat.mul
                    (match Item.price item with
                     | Some p =>
                         if truthy_num p then p
                         else TicketType.price ticketTypeObj
                     | None => TicketType.price ticketTypeObj
                     end)
                    (Z2float (quantity_of item))) new.
Proof.
  intros Hrun. apply run_POST_item_cases in Hrun
    as [(response & -> & -> & _)
       | (eventId & ev & ticketTypeObj & Hid & _ & Hev & Hres & Hout)].
  { exists []. rewrite app_nil_r. repeat split; [discriminate | constructor]. }
  assert (Htotal :
            Order.total
              (new_order' w user eventId (Item.price item) (quantity_of item)
                 ticketTypeObj)
            = PrimFloat.mul
                (match Item.price item with
                 | Some p =>
                     if truthy_num p then p else TicketType.price ticketTypeObj
                 | None => TicketType.price ticketTypeObj
                 end)
                (Z2float (quantity_of item))).
  { cbn [new_order Order.total]. unfold orderTotal.
    destruct (Item.price item) as [p |]; [| reflexivity].
    now destruct (truthy_num p). }
  destruct Hout;
    try (exists []; rewrite app_nil_r;
         repeat split; [discriminate | constructor]);
    (eexists [_]; split; [reflexivity |]; split;
     [try discriminate; now intros c [= <-] |];
     constructor; [| constructor]; split; [reflexivity |];
     exists eventId, ev, ticketTypeObj; repeat split; auto).
Qed.

(** *** C7 *)

(** C7 (as amended).  The ticket type of a line item is the event's first
    type with the supplied [ticketTypeId] when that is non-empty, else
    the first type with the supplied [ticketType] name when that is
    non-empty, else the event's first type.  A supplied id matching no
    type ends the request with 404 "Ticket type not found"; a supplied
    name matching no type, or an event without types, ends it with 400
    "No ticket types available for this event".  In each of these cases
    the world is left untouched. *)
Theorem ticket_type_resolution w user item eventId ev :
  Item.eventId item = Some eventId ->
  eventId <> "" ->
  find_event eventId w = Some ev ->
  let types := types_of_event eventId w in
  let resolved :=
    resolveTicketType (EventWithTypes.mk ev types)
      (Item.ticketTypeId item) (Item.ticketType item) in
  (forall tid,
      Item.ticketTypeId item = Some tid -> tid <> "" ->
      match find (fun t => String.eqb (TicketType.id t) tid) types with
      | Some t => resolved = inr t
      | None =>
          run (POST_item user item) w
          = (Some (inl (error_response "Ticket type not found" 404)), w)
      end) /\
  (truthy_str (Item.ticketTypeId item) = false ->
   forall name,
     Item.ticketType item = Some name -> name <> "" ->
     match find (fun t => String.eqb (TicketType.name t) name) types with
     | Some t => resolved = inr t
     | None =>
         run (POST_item user item) w
         = (Some (inl (error_response
                         "No ticket types available for this event" 400)), w)
     end) /\
  (truthy_str (Item.ticketTypeId item) = false ->
   truthy_str (Item.ticketType item) = false ->
   match types with
   | t :: _ => resolved = inr t
   | [] =>
       run (POST_item user item) w
       = (Some (inl (error_response
                       "No ticket types available for this event" 400)), w)
   end).
Proof.
  intros Heid Hne Hev types resolved.
  assert (Ht : truthy_str (Some eventId) = true).
  { simpl. now destruct (String.eqb_spec eventId ""). }
  assert (Hrun : forall response,
             resolved = inl response ->
             run (POST_item user item) w = (Some (inl response), w)).
  { intros response Hres. unfold POST_item. rewrite Heid, Ht.
    cbn [bind await run runProg exec]. rewrite Hev.
    fold types. fold resolved. now rewrite Hres. }
  repeat split.
  - intros tid Htid Hnonempty.
    assert (Htr : truthy_str (Item.ticketTypeId item) = true).
    { rewrite Htid. simpl. now destruct (String.eqb_spec tid ""). }
    destruct (find _ types) as [t |] eqn:Hf.
    + unfold resolved, resolveTicketType. rewrite Htr, Htid.
      cbn [EventWithTypes.ticketTypes strict_eq]. now rewrite Hf.
    + apply Hrun. unfold resolved, resolveTicketType. rewrite Htr, Htid.
      cbn [EventWithTypes.ticketTypes strict_eq]. now rewrite Hf.
  - intros Hid name Hname Hnonempty.
    assert (Htr : truthy_str (Item.ticketType item) = true).
    { rewrite Hname. simpl. now destruct (String.eqb_spec name ""). }
    destruct (find _ types) as [t |] eqn:Hf.
    + unfold resolved, resolveTicketType. rewrite Hid, Htr, Hname.
      cbn [EventWithTypes.ticketTypes strict_eq]. now rewrite Hf.
    + apply Hrun. unfold resolved, resolveTicketType. rewrite Hid, Htr, Hname.
      cbn [EventWithTypes.ticketTypes strict_eq]. now rewrite Hf.
  - intros Hid Hname.
    destruct types as [| t rest] eqn:Hty.
    + apply Hrun. unfold resolved, resolveTicketType. now rewrite Hid, Hname.
    + unfold resolved, resolveTicketType. now rewrite Hid, Hname.
Qed.

(** *** C5 *)

(** C5 (as amended).  A failed delivery rolls nothing back and is not
    reported as such.  When the order and the tickets of a line item
    have been written and [sendTicketEmail] rejects, the order row and
    its tickets, one per unit, each referencing the order, stay in their
    tables; the handler throws, and the caller gets the 500 response
    "Failed to create order" of the [catch] block.  When
    [sendTicketEmail] resolves, the mail sent or not, the item completes:
    the loop body yields the order, whatever became of the mail. *)
Theorem delivery_failure_keeps_issuance w user item rest createdOrders
    eventId ev ticketTypeObj l :
  Item.eventId item = Some eventId ->
  eventId <> "" ->
  find_event eventId w = Some ev ->
  resolveTicketType (EventWithTypes.mk ev (types_of_event eventId w))
    (Item.ticketTypeId item) (Item.ticketType item) = inr ticketTypeObj ->
  0 <= quantity_of item
    <= TicketType.quantity ticketTypeObj - TicketType.soldCount ticketTypeObj ->
  minted' eventId user (cuid (World.cuids w)) ticketTypeObj
    (Z.to_nat (quantity_of item)) 0 (World.ticks w) = Some l ->
  let order :=
    new_order' w user eventId (Item.price item) (quantity_of item)
      ticketTypeObj in
  let delivery :=
    sendTicketEmail (List.length (World.mails w))
      (email_of user (OrderWithEvent.mk order ev) l) in
  (delivery = Rejected ->
   exists w' new,
     run (POST_items user (item :: rest) createdOrders) w = (None, w') /\
     (forall request,
         Request.session request = Some user ->
         SessionUser.id user <> "" ->
         (exists body, Request.body request = Some body /\
                       Body.items body = Some (item :: rest)) ->
         POST' request w = (caught, w')) /\
     World.orders w' = (World.orders w ++ [order])%list /\
     World.tickets w' = (World.tickets w ++ new)%list /\
     Z.of_nat (List.length new) = quantity_of item /\
     Forall (fun t => Ticket.orderId t = Order.id order) new) /\
  (delivery <> Rejected ->
   run (POST_item user item) w
   = (Some (inr (OrderWithEvent.mk order ev)),
      issued' w user eventId (Item.price item) (quantity_of item)
        ticketTypeObj ev l)).
Proof.
  intros Heid Hne Hev Hres [Hq0 Hq] Hm order delivery.
  split.
  2:{ intros Hsend.
      rewrite (run_POST_item_resolved _ _ _ _ _ _ Heid Hne Hev Hres).
      pose proof (resolveTicketType_In _ _ _ _ Hres) as Hin.
      cbn [EventWithTypes.ticketTypes] in Hin.
      apply types_of_event_In in Hin as [Hin _].
      apply (run_issue_ok _ _ _ _ _ _ _ l Hev
               (has_ticketType_In _ _ Hin) Hq Hm).
      fold order. fold delivery. now destruct delivery. }
  intros Hsend.
  assert (Hitem : run (POST_item user item) w
                  = (None,
                     mailed
                       (persisted cuid w order l (quantity_of item))
                       (email_of user (OrderWithEvent.mk order ev) l)
                       Rejected)).
  { rewrite (run_POST_item_resolved _ _ _ _ _ _ Heid Hne Hev Hres).
    now apply run_issue_undelivered. }
  assert (Hitems : forall created,
             run (POST_items user (item :: rest) created) w
             = (None,
                mailed
                  (persisted cuid w order l (quantity_of item))
                  (email_of user (OrderWithEvent.mk order ev) l)
                  Rejected)).
  { intros created. cbn [POST_items]. now rewrite run_bind, Hitem. }
  eexists _, (ticket_rows cuid (S (World.cuids w)) l).
  split; [exact (Hitems createdOrders) |].
  split.
  { intros request Hs Hid (body & Hb & Hi).
    unfold POST, POST_try. cbn [bind await run runProg exec].
    rewrite Hs.
    assert (Ht : truthy_str (Some (SessionUser.id user)) = true).
    { simpl. now destruct (String.eqb_spec (SessionUser.id user) ""). }
    rewrite Ht. cbn [bind await run runProg exec]. rewrite Hb, Hi.
    now rewrite Hitems. }
  cbn [mailed persisted World.orders World.tickets].
  repeat split.
  - unfold ticket_rows. rewrite mapi_length.
    rewrite (minted_length _ _ _ _ _ _ _ _ Hm). lia.
  - unfold ticket_rows.
    apply mapi_Forall with (2 := minted_refs _ _ _ _ _ _ _ _ Hm).
    intros d n (-> & _). reflexivity.
Qed.

(** *** Served one at a time, the handler does not oversell *)






(** *** With a quantity that is a count, the counters only grow *)

Lemma Forall2_same {A} (R : A -> A -> Prop) (l : list A) :
  (forall a, R a a) -> Forall2 R l l.
Proof. intros HR. induction l; constructor; auto. Qed.

Lemma increment_soldCount_grows id n rows :
  0 <= n ->
  Forall2 (fun a b => TicketType.id a = TicketType.id b /\
                      TicketType.soldCount a <= TicketType.soldCount b)
    rows (increment_soldCount id n rows).
Proof.
  intros Hn. induction rows as [| t rows IH]; simpl; constructor; auto.
  destruct (String.eqb _ _); simpl; split; auto; lia.
Qed.

Lemma increment_soldTickets_grows id n rows :
  0 <= n ->
  Forall2 (fun a b => Event.id a = Event.id b /\
                      Event.soldTickets a <= Event.soldTickets b)
    rows (increment_soldTickets id n rows).
Proof.
  intros Hn. induction rows as [| e rows IH]; simpl; constructor; auto.
  destruct (String.eqb _ _); simpl; split; auto; lia.
Qed.

(** A line item of quantity 0 or more decreases no [soldCount] and no
    [soldTickets], however its processing ends. *)
Lemma counted_item_never_decrements w user item r w' :
  0 <= quantity_of item ->
  run (POST_item user item) w = (r, w') ->
  Forall2 (fun a b => TicketType.id a = TicketType.id b /\
                      TicketType.soldCount a <= TicketType.soldCount b)
    (World.ticketTypes w) (World.ticketTypes w') /\
  Forall2 (fun a b => Event.id a = Event.id b /\
                      Event.soldTickets a <= Event.soldTickets b)
    (World.events w) (World.events w').
Proof.
  intros Hq Hrun.
  assert (Hsame : forall w0,
             World.ticketTypes w0 = World.ticketTypes w ->
             World.events w0 = World.events w ->
             Forall2 (fun a b => TicketType.id a = TicketType.id b /\
                                 TicketType.soldCount a
                                 <= TicketType.soldCount b)
               (World.ticketTypes w) (World.ticketTypes w0) /\
             Forall2 (fun a b => Event.id a = Event.id b /\
                                 Event.soldTickets a <= Event.soldTickets b)
               (World.events w) (World.events w0)).
  { intros w0 -> ->. split; apply Forall2_same; intros; split; auto; lia. }
  apply run_POST_item_cases in Hrun
    as [(response & _ & -> & _)
       | (eventId & ev & ticketTypeObj & _ & _ & _ & _ & Hout)].
  { now apply Hsame. }
  destruct Hout; try (now apply Hsame).
  cbn [issued World.ticketTypes World.events]. split.
  - now apply increment_soldCount_grows.
  - now apply increment_soldTickets_grows.
Qed.

(** A handler scheduled alone behaves as [runProg] says. *)
Lemma alone_is_sequential (p : Prog Response.t) :
  forall w, exists n,
    interleave cuid Date_now generateQRCode sendTicketEmail
      (repeat 0%nat n) [Running p] w
    = match run p w with
      | (Some response, w') => ([Responded response], w')
      | (None, w') => ([Responded caught], w')
      end.
Proof.
  induction p as [r | X op k IH]; intros w.
  - now exists 1%nat.
  - destruct (exec' op w) as [[x |] w1] eqn:Hex.
    + destruct (IH x w1) as [n Hn]. exists (S n).
      cbn [repeat interleave nth_error step set_nth runProg].
      rewrite Hex. exact Hn.
    + exists 1%nat.
      cbn [repeat interleave nth_error step set_nth runProg].
      now rewrite Hex.
Qed.

End Sequential.

(* ================================================================== *)
(** ** Credentials under request-parallel execution *)

Section Uniqueness.

Variable cuid : nat -> string.
Variable Date_now : nat -> Z.
Variable generateQRCode : QRData.t -> option string.
Variable sendTicketEmail : nat -> EmailArgs.t -> Delivery.

Hypothesis cuid_inj : forall a b, cuid a = cuid b -> a = b.
Hypothesis minted_inj : credential_embeds_tuple generateQRCode.

#[local] Abbreviation mints' := (@mints generateQRCode).
#[local] Abbreviation batch_of' := (batch_of generateQRCode).
#[local] Abbreviation world_ok' := (world_ok cuid generateQRCode).
#[local] Abbreviation tasks_ok' := (tasks_ok generateQRCode).
#[local] Abbreviation exec' := (exec cuid Date_now generateQRCode sendTicketEmail).
#[local] Abbreviation step' := (step cuid Date_now generateQRCode sendTicketEmail).
#[local] Abbreviation interleave' :=
  (interleave cuid Date_now generateQRCode sendTicketEmail).

(** *** The handler keeps the bookkeeping *)

Lemma mints_bind {A B} (p : Prog A) (f : A -> Prog B)
    (Q : A -> option string -> Prop) (R : B -> option string -> Prop) :
  (forall a own, Q a own -> mints' own (f a) R) ->
  forall own, mints' own p Q -> mints' own (bind p f) R.
Proof.
  intros Hf. induction p as [a | X op k IH]; intros own; simpl.
  - apply Hf.
  - intros [Hpre Hk]. split; [exact Hpre |].
    intros x Hx. apply IH, Hk, Hx.
Qed.

Lemma batch_of_nil o : batch_of' o [].
Proof. intros [| j] row H; discriminate. Qed.

Lemma batch_of_snoc o data row d :
  batch_of' o data ->
  TicketData.orderId row = o ->
  generateQRCode d = Some (TicketData.qrCode row) ->
  QRData.orderId d = o ->
  QRData.ticketNumber d = Z.of_nat (List.length data) + 1 ->
  batch_of' o (data ++ [row]).
Proof.
  intros Hb Ho Hq Hdo Hdn j row' Hj.
  destruct (Nat.lt_ge_cases j (List.length data)) as [Hlt | Hge].
  - rewrite nth_error_app1 in Hj by exact Hlt. now apply Hb.
  - rewrite nth_error_app2 in Hj by exact Hge.
    destruct (j - List.length data)%nat as [| m] eqn:Hm.
    + injection Hj as <-. split; [exact Ho |].
      exists d. repeat split; auto.
      replace j with (List.length data) by lia. exact Hdn.
    + destruct m; discriminate.
Qed.

Lemma mints_mintTickets eventId user orderId ticketTypeObj :
  forall todo i acc,
    i = Z.of_nat (List.length acc) ->
    batch_of' orderId acc ->
    mints' (Some orderId)
      (mintTickets eventId user orderId ticketTypeObj todo i acc)
      (fun l own => own = Some orderId /\ batch_of' orderId l).
Proof.
  induction todo as [| todo IH]; intros i acc Hi Hacc; simpl.
  - now split.
  - split; [exact I |]. intros now _. cbn [op_own].
    split; [exact I |]. intros q Hq. cbn [op_own].
    apply IH.
    + rewrite length_app. simpl. lia.
    + eapply batch_of_snoc; eauto. simpl. lia.
Qed.

Lemma mints_issue user eventId price quantity ticketTypeObj own :
  mints' own (issue user eventId price quantity ticketTypeObj)
    (fun _ _ => True).
Proof.
  unfold issue. destruct (_ <? _); [exact I |].
  cbn [bind await mints op_pre op_own].
  split; [exact I |]. intros order _.
  eapply mints_bind;
    [| apply mints_mintTickets; [reflexivity | apply batch_of_nil]].
  intros l own' [-> Hl]. cbn [bind await mints op_pre op_own].
  split; [now exists (Order.id (OrderWithEvent.order order)) |].
  intros _ _. split; [exact I |]. intros _ _.
  split; [exact I |]. intros _ _.
  split; [exact I |]. intros _ _. exact I.
Qed.

Lemma mints_POST_item user item own :
  mints' own (POST_item user item) (fun _ _ => True).
Proof.
  unfold POST_item. destruct (Item.eventId item) as [eventId |]; [| exact I].
  destruct (truthy_str (Some eventId)); [| exact I].
  cbn [bind await mints op_pre op_own].
  split; [exact I |]. intros [event |] _; [| exact I].
  destruct (resolveTicketType _ _ _); [exact I | apply mints_issue].
Qed.

Lemma mints_POST_items user :
  forall items createdOrders own,
    mints' own (POST_items user items createdOrders) (fun _ _ => True).
Proof.
  induction items as [| item rest IH]; intros createdOrders own;
    cbn [POST_items].
  - exact I.
  - eapply mints_bind; [| apply mints_POST_item].
    intros [response | order] own' _; [exact I | apply IH].
Qed.

Lemma mints_POST_try request own :
  mints' own (POST_try request) (fun _ _ => True).
Proof.
  unfold POST_try. cbn [bind await mints op_pre op_own].
  split; [exact I |]. intros [user |] _; [| exact I].
  destruct (truthy_str _); [| exact I].
  cbn [bind await mints op_pre op_own].
  split; [exact I |]. intros body _.
  destruct (Body.items body) as [[| item rest] |]; try exact I.
  apply mints_POST_items.
Qed.

(** *** Operations keep the invariant *)

Lemma nth_error_set_nth_eq {A} (l : list A) :
  forall i x y, nth_error l i = Some y -> nth_error (set_nth i x l) i = Some x.
Proof.
  induction l as [| a l IH]; intros [| i] x y H; simpl in *;
    try discriminate; eauto.
Qed.

Lemma nth_error_set_nth_neq {A} (l : list A) :
  forall i j x, i <> j -> nth_error (set_nth i x l) j = nth_error l j.
Proof.
  induction l as [| a l IH]; intros [| i] [| j] x H; simpl; auto;
    try contradiction.
Qed.

Lemma set_nth_length {A} (l : list A) :
  forall i x, List.length (set_nth i x l) = List.length l.
Proof.
  induction l as [| a l IH]; intros [| i] x; simpl; auto.
Qed.

Lemma set_nth_same {A} (l : list A) :
  forall i x, nth_error l i = Some x -> set_nth i x l = l.
Proof.
  induction l as [| a l IH]; intros [| i] x H; simpl in *;
    try discriminate.
  - now injection H as ->.
  - f_equal. now apply IH.
Qed.

Lemma order_create_ok w owns i own o events ticketTypes ticks mails :
  world_ok' w -> owns_ok w owns ->
  nth_error owns i = Some own ->
  Order.id o = cuid (World.cuids w) ->
  world_ok'
    (World.mk events ticketTypes (World.orders w ++ [o])
       (World.tickets w) (S (World.cuids w)) ticks mails) /\
  owns_ok
    (World.mk events ticketTypes (World.orders w ++ [o])
       (World.tickets w) (S (World.cuids w)) ticks mails)
    (set_nth i (Some (Order.id o)) owns).
Proof.
  intros (Hfresh & Htick & Hnd) (Hown & Hdist) Hi Hid.
  assert (Hnew : forall x, In x (map Order.id (World.orders w)) ->
                           x <> Order.id o).
  { intros x Hx E. apply in_map_iff in Hx as (o' & <- & Ho').
    destruct (Hfresh o' Ho') as (n & Hn & Hidn).
    rewrite Hid, Hidn in E. apply cuid_inj in E. lia. }
  split; [split; [| split] |];
    cbn [World.orders World.tickets World.cuids].
  - intros o' Ho'. apply in_app_or in Ho' as [Ho' | [<- | []]].
    + destruct (Hfresh o' Ho') as (n & Hn & Hidn). exists n. split; [lia | auto].
    + exists (World.cuids w). split; [lia | auto].
  - intros t Ht. split; [| now apply Htick].
    rewrite map_app. apply in_or_app. left. now apply Htick.
  - exact Hnd.
  - split; cbn [World.orders World.tickets World.cuids].
    + intros j x Hj. rewrite map_app.
      destruct (Nat.eq_dec i j) as [<- | Hij].
      * rewrite (nth_error_set_nth_eq _ _ _ _ Hi) in Hj. injection Hj as <-.
        split; [apply in_or_app; right; now left |].
        intros t Ht E. apply (Hnew (Ticket.orderId t)); [now apply Htick | exact E].
      * rewrite nth_error_set_nth_neq in Hj by exact Hij.
        destruct (Hown j x Hj) as [Hin Hno].
        split; [apply in_or_app; now left | exact Hno].
    + intros j k x Hj Hk.
      destruct (Nat.eq_dec i j) as [<- | Hij];
        destruct (Nat.eq_dec i k) as [<- | Hik]; auto.
      * rewrite (nth_error_set_nth_eq _ _ _ _ Hi) in Hj. injection Hj as <-.
        rewrite nth_error_set_nth_neq in Hk by exact Hik.
        destruct (Hown k _ Hk) as [Hin _]. now apply Hnew in Hin.
      * rewrite (nth_error_set_nth_eq _ _ _ _ Hi) in Hk. injection Hk as <-.
        rewrite nth_error_set_nth_neq in Hj by exact Hij.
        destruct (Hown j _ Hj) as [Hin _]. now apply Hnew in Hin.
      * rewrite nth_error_set_nth_neq in Hj by exact Hij.
        rewrite nth_error_set_nth_neq in Hk by exact Hik.
        eapply Hdist; eauto.
Qed.

Lemma map_mapi {A B C} (f : A -> nat -> B) (g : B -> C) (h : A -> C) xs :
  (forall x n, g (f x n) = h x) ->
  forall start, map g (mapi f start xs) = map h xs.
Proof.
  intros Hgf. induction xs as [| x xs IH]; intro start; simpl;
    [reflexivity | now rewrite Hgf, IH].
Qed.

Lemma In_mapi {A B} (f : A -> nat -> B) xs y :
  forall start, In y (mapi f start xs) -> exists x n, In x xs /\ y = f x n.
Proof.
  induction xs as [| x xs IH]; intros start Hy; simpl in Hy; [contradiction |].
  destruct Hy as [<- | Hy].
  - exists x, start. split; [now left | reflexivity].
  - destruct (IH _ Hy) as (x' & n & Hin & ->).
    exists x', n. split; [now right | reflexivity].
Qed.

Lemma batch_of_In o data row :
  batch_of' o data -> In row data ->
  TicketData.orderId row = o /\
  exists d, generateQRCode d = Some (TicketData.qrCode row) /\
            QRData.orderId d = o.
Proof.
  intros Hb Hin. apply In_nth_error in Hin as [j Hj].
  destruct (Hb j row Hj) as (Ho & d & Hq & Hdo & _).
  split; [exact Ho |]. exists d. now split.
Qed.

Lemma batch_of_NoDup o data :
  batch_of' o data ->
  NoDup (map TicketData.qrCode data).
Proof.
  intros Hb. apply NoDup_nth_error. intros j k Hj E.
  rewrite length_map in Hj. rewrite !nth_error_map in E.
  destruct (nth_error data j) as [rj |] eqn:Hrj.
  2:{ apply nth_error_None in Hrj. lia. }
  destruct (nth_error data k) as [rk |] eqn:Hrk; [| discriminate].
  simpl in E. injection E as E.
  destruct (Hb j rj Hrj) as (_ & dj & Hqj & _ & Hnj).
  destruct (Hb k rk Hrk) as (_ & dk & Hqk & _ & Hnk).
  rewrite E in Hqj. rewrite (minted_inj _ _ _ Hqj Hqk) in Hnj. lia.
Qed.

Lemma create_many_ok w owns i o data events ticketTypes ticks mails :
  world_ok' w -> owns_ok w owns ->
  nth_error owns i = Some (Some o) ->
  batch_of' o data ->
  world_ok'
    (World.mk events ticketTypes (World.orders w)
       (World.tickets w ++ ticket_rows cuid (World.cuids w) data)
       (World.cuids w + List.length data)%nat ticks mails) /\
  owns_ok
    (World.mk events ticketTypes (World.orders w)
       (World.tickets w ++ ticket_rows cuid (World.cuids w) data)
       (World.cuids w + List.length data)%nat ticks mails)
    (set_nth i None owns).
Proof.
  intros (Hfresh & Htick & Hnd) (Hown & Hdist) Hi Hb.
  destruct (Hown i o Hi) as [Hoin Hono].
  assert (Hrows : forall t,
             In t (ticket_rows cuid (World.cuids w) data) ->
             Ticket.orderId t = o /\
             exists d, generateQRCode d = Some (Ticket.qrCode t) /\
                       QRData.orderId d = o).
  { intros t Ht. unfold ticket_rows in Ht.
    apply In_mapi in Ht as (row & n & Hin & ->).
    cbn [Ticket.orderId Ticket.qrCode]. now apply (batch_of_In o data). }
  split; [split; [| split] |];
    cbn [World.orders World.tickets World.cuids].
  - intros o' Ho'. destruct (Hfresh o' Ho') as (n & Hn & Hidn).
    exists n. split; [lia | exact Hidn].
  - intros t Ht. apply in_app_or in Ht as [Ht | Ht]; [now apply Htick |].
    destruct (Hrows t Ht) as (-> & d & Hd & Hdo). split; [exact Hoin |].
    exists d. now split.
  - rewrite map_app. apply NoDup_app.
    + exact Hnd.
    + unfold ticket_rows.
      rewrite (map_mapi _ _ TicketData.qrCode) by reflexivity.
      now apply (batch_of_NoDup o).
    + intros x Hold Hnew.
      apply in_map_iff in Hold as (t & <- & Ht).
      apply in_map_iff in Hnew as (t' & E & Ht').
      destruct (Htick t Ht) as (_ & d & Hd & Hdo).
      destruct (Hrows t' Ht') as (_ & d' & Hd' & Hdo').
      rewrite E in Hd'. rewrite (minted_inj _ _ _ Hd Hd') in Hdo.
      apply (Hono t Ht). congruence.
  - split; cbn [World.orders World.tickets World.cuids].
    + intros j x Hj.
      destruct (Nat.eq_dec i j) as [<- | Hij].
      * rewrite (nth_error_set_nth_eq _ _ _ _ Hi) in Hj. discriminate.
      * rewrite nth_error_set_nth_neq in Hj by exact Hij.
        destruct (Hown j x Hj) as [Hin Hno]. split; [exact Hin |].
        intros t Ht. apply in_app_or in Ht as [Ht | Ht]; [now apply Hno |].
        destruct (Hrows t Ht) as (-> & _). intros <-.
        apply Hij. eapply Hdist; eauto.
    + intros j k x Hj Hk.
      destruct (Nat.eq_dec i j) as [<- | Hij].
      { rewrite (nth_error_set_nth_eq _ _ _ _ Hi) in Hj. discriminate. }
      destruct (Nat.eq_dec i k) as [<- | Hik].
      { rewrite (nth_error_set_nth_eq _ _ _ _ Hi) in Hk. discriminate. }
      rewrite nth_error_set_nth_neq in Hj by exact Hij.
      rewrite nth_error_set_nth_neq in Hk by exact Hik.
      eapply Hdist; eauto.
Qed.

Lemma exec_ok {X} (op : Op X) w owns i own :
  world_ok' w -> owns_ok w owns ->
  nth_error owns i = Some own ->
  op_pre generateQRCode op own ->
  match exec' op w with
  | (Some x, w') =>
      world_ok' w' /\ owns_ok w' (set_nth i (op_own op own x) owns) /\
      op_result generateQRCode op x
  | (None, w') => world_ok' w' /\ owns_ok w' owns
  end.
Proof.
  intros Hw Ho Hi Hpre.
  assert (Hsame : set_nth i own owns = owns) by now apply set_nth_same.
  destruct op; cbn [exec op_own op_result op_pre] in *.
  - rewrite Hsame. auto.
  - destruct (Request.body request); [rewrite Hsame |]; auto.
  - rewrite Hsame. auto.
  - destruct (find_event _ w); [| auto].
    destruct (order_create_ok w owns i own
                (Order.mk (cuid (World.cuids w)) (OrderData.total data)
                   OrderStatus.PENDING None None None
                   (OrderData.userId data) (OrderData.eventId data))
                (World.events w) (World.ticketTypes w) (World.ticks w)
                (World.mails w) Hw Ho Hi eq_refl) as [Hw' Ho'].
    auto.
  - rewrite Hsame. split; [| split]; auto.
  - destruct (generateQRCode data); [rewrite Hsame |]; auto.
  - destruct Hpre as (o & -> & Hb).
    destruct (create_many_ok w owns i o data (World.events w)
                (World.ticketTypes w) (World.ticks w) (World.mails w)
                Hw Ho Hi Hb) as [Hw' Ho'].
    auto.
  - destruct (resolves (sendTicketEmail _ _));
      [rewrite Hsame; split; [| split] | split];
      auto.
  - destruct (has_ticketType _ w); [rewrite Hsame; split; [| split] | split];
      auto.
  - destruct (find_event _ w); [rewrite Hsame; split; [| split] | split];
      auto.
Qed.

(** *** Every schedule keeps the invariant *)

Lemma tasks_ok_responded tasks owns i r :
  tasks_ok' tasks owns -> tasks_ok' (set_nth i (Responded r) tasks) owns.
Proof.
  intros [Hlen Hm]. split; [now rewrite set_nth_length |].
  intros j p own Hj Hoj. destruct (Nat.eq_dec i j) as [<- | Hij].
  - destruct (nth_error tasks i) as [t |] eqn:Ht.
    + rewrite (nth_error_set_nth_eq _ _ _ _ Ht) in Hj. discriminate.
    + apply nth_error_None in Ht.
      assert (Hnone : nth_error (set_nth i (Responded r) tasks) i = None).
      { apply nth_error_None. now rewrite set_nth_length. }
      congruence.
  - rewrite nth_error_set_nth_neq in Hj by exact Hij. eauto.
Qed.

Lemma step_ok tasks owns w i t :
  world_ok' w -> owns_ok w owns -> tasks_ok' tasks owns ->
  nth_error tasks i = Some t ->
  exists owns',
    world_ok' (snd (step' t w)) /\
    owns_ok (snd (step' t w)) owns' /\
    tasks_ok' (set_nth i (fst (step' t w)) tasks) owns'.
Proof.
  intros Hw Ho Ht Hi. destruct t as [[r | X op k] | r]; cbn [step].
  - exists owns. cbn [fst snd]. split; [| split]; auto.
    now apply tasks_ok_responded.
  - destruct Ht as [Hlen Hm].
    destruct (nth_error owns i) as [own |] eqn:Hown.
    2:{ apply nth_error_None in Hown.
        assert (i < List.length tasks)%nat
          by (apply nth_error_Some; congruence).
        lia. }
    pose proof (Hm i _ own Hi Hown) as [Hpre Hk]. fold (@mints) in Hk.
    pose proof (exec_ok op w owns i own Hw Ho Hown Hpre) as Hex.
    destruct (exec' op w) as [[x |] w'] eqn:Hexec; cbn [fst snd].
    + destruct Hex as (Hw' & Ho' & Hres).
      exists (set_nth i (op_own op own x) owns).
      split; [| split; [| split]]; auto.
      * now rewrite !set_nth_length.
      * intros j p own' Hj Hoj. destruct (Nat.eq_dec i j) as [<- | Hij].
        -- rewrite (nth_error_set_nth_eq _ _ _ _ Hi) in Hj.
           rewrite (nth_error_set_nth_eq _ _ _ _ Hown) in Hoj.
           injection Hj as <-. injection Hoj as <-. now apply Hk.
        -- rewrite nth_error_set_nth_neq in Hj by exact Hij.
           rewrite nth_error_set_nth_neq in Hoj by exact Hij. eauto.
    + destruct Hex as (Hw' & Ho').
      exists owns. split; [| split]; auto.
      now apply tasks_ok_responded.
  - exists owns. cbn [fst snd]. split; [| split]; auto.
    now apply tasks_ok_responded.
Qed.

Lemma interleave_ok :
  forall schedule tasks owns w,
    world_ok' w -> owns_ok w owns -> tasks_ok' tasks owns ->
    world_ok' (snd (interleave' schedule tasks w)).
Proof.
  induction schedule as [| i rest IH]; intros tasks owns w Hw Ho Ht;
    cbn [interleave].
  - exact Hw.
  - destruct (nth_error tasks i) as [t |] eqn:Hi; [| eauto].
    destruct (step_ok tasks owns w i t Hw Ho Ht Hi)
      as (owns' & Hw' & Ho' & Ht').
    destruct (step' t w) as [t' w']. cbn [fst snd] in *. eauto.
Qed.

(** *** C9 *)

(** C9.  With collision-free ids and a credential that embeds the tuple
    it was minted from, however the handlers of any number of requests
    are interleaved, no two tickets in the table carry the same
    [qrCode], and each was minted from a tuple naming its own order: the
    tuples of two tickets differ in the order id or in the ticket
    number. *)
Theorem credentials_unique requests schedule w :
  world_ok' w ->
  let w' :=
    snd (interleave' schedule
           (map (fun request => Running (POST_try request)) requests) w) in
  NoDup (map Ticket.qrCode (World.tickets w')) /\
  forall t, In t (World.tickets w') ->
            exists d, generateQRCode d = Some (Ticket.qrCode t) /\
                      QRData.orderId d = Ticket.orderId t.
Proof.
  intros Hw w'.
  assert (Hw' : world_ok' w').
  { apply (interleave_ok schedule _ (map (fun _ => None) requests) w Hw).
    - split.
      + intros i o Hi. rewrite nth_error_map in Hi.
        destruct (nth_error requests i); discriminate.
      + intros i j o Hi. rewrite nth_error_map in Hi.
        destruct (nth_error requests i); discriminate.
    - split; [now rewrite !length_map |].
      intros i p own Hi _. rewrite nth_error_map in Hi.
      destruct (nth_error requests i) as [request |]; [| discriminate].
      injection Hi as <-. apply mints_POST_try. }
  destruct Hw' as (_ & Htick & Hnd). split; [exact Hnd |].
  intros t Ht. now apply Htick.
Qed.

End Uniqueness.

(* ================================================================== *)
(** ** The concrete collaborators are collision-free *)

Lemma digits_then_colon (d d' : Decimal.uint) (r r' : string) :
  NilEmpty.string_of_uint d ++ String ":" r
  = NilEmpty.string_of_uint d' ++ String ":" r' ->
  d = d' /\ r = r'.
Proof.
  revert d'. induction d as [| d IH | d IH | d IH | d IH | d IH | d IH
                             | d IH | d IH | d IH | d IH];
    intros [| d' | d' | d' | d' | d' | d' | d' | d' | d' | d'] H;
    simpl in H; try discriminate;
    injection H as H;
    try (apply IH in H as [-> ->]); subst; auto.
Qed.

Lemma nat_to_string_inj (n m : nat) :
  nat_to_string n = nat_to_string m -> n = m.
Proof.
  unfold nat_to_string. intros H.
  apply (f_equal NilEmpty.uint_of_string) in H.
  rewrite !NilEmpty.usu in H. injection H as H.
  apply (f_equal Nat.of_uint) in H. now rewrite !DecimalNat.Unsigned.of_to in H.
Qed.

Lemma Z_to_string_inj (a b : Z) : Z_to_string a = Z_to_string b -> a = b.
Proof.
  unfold Z_to_string. intros H.
  assert (Hok : forall z, NilZero.int_of_string
                            (NilZero.string_of_int (Z.to_int z))
                          = Some (Z.to_int z)).
  { intros z. apply NilZero.isi; destruct z; simpl; try discriminate;
      intros [= E]; now apply DecimalPos.Unsigned.to_uint_nonnil in E. }
  apply (f_equal NilZero.int_of_string) in H. rewrite !Hok in H.
  injection H as H. now apply DecimalZ.to_int_inj.
Qed.

Lemma append_same_length (a b x y : string) :
  String.length a = String.length b -> a ++ x = b ++ y -> a = b /\ x = y.
Proof.
  revert b. induction a as [| c a IH]; intros [| c' b] Hlen H;
    simpl in *; try discriminate; auto.
  injection H as -> H. injection Hlen as Hlen.
  destruct (IH b Hlen H) as [-> ->]. auto.
Qed.

Lemma append_inj_l (p a b : string) : p ++ a = p ++ b -> a = b.
Proof.
  induction p as [| c p IH]; simpl; [auto |]. intros [= H]. auto.
Qed.

Lemma append_assoc (a b c : string) : (a ++ b) ++ c = a ++ b ++ c.
Proof.
  induction a as [| ch a IH]; simpl; [reflexivity | now rewrite IH].
Qed.

Lemma netstring_inj (a b x y : string) :
  netstring a ++ x = netstring b ++ y -> a = b /\ x = y.
Proof.
  unfold netstring, nat_to_string. rewrite !append_assoc. simpl.
  intros H. apply digits_then_colon in H as [Hlen H].
  apply (f_equal Nat.of_uint) in Hlen. rewrite !DecimalNat.Unsigned.of_to in Hlen.
  now apply append_same_length.
Qed.

Lemma Scenario_ids_inj (a b : nat) : Scenario.ids a = Scenario.ids b -> a = b.
Proof.
  unfold Scenario.ids. intros H. apply append_inj_l in H.
  now apply nat_to_string_inj.
Qed.

Lemma Scenario_qr_inj : credential_embeds_tuple Scenario.qr.
Proof.
  intros [e u o n t] [e' u' o' n' t'] q H H'. rewrite <- H' in H. clear H'.
  unfold Scenario.qr in H. injection H as H.
  unfold Scenario.payload in H.
  cbn [QRData.eventId QRData.userId QRData.orderId QRData.ticketNumber
       QRData.timestamp] in H.
  apply netstring_inj in H as [-> H].
  apply netstring_inj in H as [-> H].
  apply netstring_inj in H as [-> H].
  apply netstring_inj in H as [Hn H].
  assert (Ht : netstring (Z_to_string t) ++ ""
               = netstring (Z_to_string t') ++ "") by now rewrite H.
  apply netstring_inj in Ht as [Ht _].
  apply Z_to_string_inj in Hn, Ht. now subst.
Qed.

(* ================================================================== *)
(** ** The handler on the concrete instance *)

Module Evaluation.

Import Scenario.



(** The scenario of the specification: two VIP tickets sell out the
    type; one more is refused and [soldCount] stays at 2. *)
Example vip_sells_out :
  let '(r1, w1) := POST ids clock qr deliver (cart alice [vip_item 2]) world in
  let '(r2, w2) := POST ids clock qr deliver (cart bob [vip_item 1]) w1 in
  Response.status r1 = 201 /\
  option_map TicketType.soldCount (find_ticketType "t1" w1) = Some 2 /\
  r2 = error_response "Not enough tickets available" 400 /\
  w2 = w1.
Proof. vm_compute. repeat split. Qed.

(** Three VIP tickets are asked for, two exist. *)
Lemma oversized_item_refused_witness :
  runProg ids clock qr deliver (POST_item alice (vip_item 3)) world
  = (Some (inl (error_response "Not enough tickets available" 400)), world) /\
  runProg ids clock qr deliver (POST_items alice [vip_item 3; vip_item 1] [])
    world
  = (Some (error_response "Not enough tickets available" 400), world).
Proof.
  apply (oversized_item_refused ids clock qr deliver world alice (vip_item 3)
           [vip_item 1] [] "e1" gala vip).
  - reflexivity.
  - discriminate.
  - reflexivity.
  - reflexivity.
  - vm_compute. reflexivity.
Defined.

(** C3, on the code.  Two requests for one VIP ticket each, one ticket
    left.  The first handler reads the ticket type, the second is served
    whole, the first resumes on what it read: both are answered 201 and
    [soldCount] ends at 3 of 2. *)
Theorem check_then_act_oversells :
  let '(tasks, w') :=
    interleave ids clock qr deliver stale_read
      [Running (POST_try (cart alice [vip_item 1]));
       Running (POST_try (cart bob [vip_item 1]))] one_left in
  (exists r1 r2,
      tasks = [Responded r1; Responded r2] /\
      Response.status r1 = 201 /\ Response.status r2 = 201) /\
  option_map TicketType.soldCount (find_ticketType "t1" w') = Some 3 /\
  option_map TicketType.quantity (find_ticketType "t1" w') = Some 2 /\
  List.length (World.tickets w') = 2%nat.
Proof.
  vm_compute. split; [| repeat split]. eexists _, _. repeat split.
Qed.

(** C4, on the code.  A line item of quantity -1 passes the availability
    check, creates an order without tickets and is answered 201; the
    increments by -1 take [soldCount] and [soldTickets] from 1 to 0. *)
Theorem negative_quantity_decrements :
  let '(response, w') :=
    POST ids clock qr deliver (cart alice [vip_item (-1)]) one_left in
  Response.status response = 201 /\
  option_map TicketType.soldCount (find_ticketType "t1" one_left) = Some 1 /\
  option_map TicketType.soldCount (find_ticketType "t1" w') = Some 0 /\
  option_map Event.soldTickets (find_event "e1" one_left) = Some 1 /\
  option_map Event.soldTickets (find_event "e1" w') = Some 0 /\
  List.length (World.orders w') = 1%nat /\
  World.tickets w' = [].
Proof. vm_compute. repeat split. Qed.

(** Against C5 as stated: the mail for one VIP ticket does not go out.
    If [sendTicketEmail] rejects, the order and the ticket stay, but
    [soldCount] and [soldTickets] are not incremented and the caller
    gets the bare 500 response.  If it resolves, the caller gets the
    response of a sent mail. *)
Lemma delivery_failure_not_surfaced :
  (let '(response, w') :=
     POST ids clock qr bounce (cart alice [vip_item 1]) world in
   response = error_response "Failed to create order" 500 /\
   json_get "orders" (Response.body response) = None /\
   List.length (World.orders w') = 1%nat /\
   List.length (World.tickets w') = 1%nat /\
   option_map TicketType.soldCount (find_ticketType "t1" w') = Some 0 /\
   option_map Event.soldTickets (find_event "e1" w') = Some 0) /\
  fst (POST ids clock qr swallow (cart alice [vip_item 1]) world)
  = fst (POST ids clock qr deliver (cart alice [vip_item 1]) world).
Proof. vm_compute. repeat split. Qed.

(** The mail for one VIP ticket is rejected: order and ticket stay. *)
Lemma delivery_failure_keeps_issuance_witness :
  exists w' new,
    runProg ids clock qr bounce (POST_items alice [vip_item 1] []) world
    = (None, w') /\
    POST ids clock qr bounce (cart alice [vip_item 1]) world = (caught, w') /\
    List.length (World.orders w') = 1%nat /\
    World.tickets w' = new /\
    List.length new = 1%nat.
Proof.
  destruct (delivery_failure_keeps_issuance ids clock qr bounce world alice
              (vip_item 1) [] [] "e1" gala vip
              [TicketData.mk
                 ("data:image/png;base64,"
                  ++ payload (QRData.mk "e1" "u1" "c0" 1 1700000000000))
                 "VIP" 50%float "e1" "u1" "c0" "t1"])
    as [Hrejected _].
  - reflexivity.
  - discriminate.
  - reflexivity.
  - reflexivity.
  - vm_compute. split; discriminate.
  - reflexivity.
  - destruct (Hrejected eq_refl)
      as (w' & new & Hrun & Hpost & Hord & Htick & Hlen & _).
    exists w', new. repeat split.
    + exact Hrun.
    + apply Hpost; [reflexivity | discriminate |].
      eexists. split; reflexivity.
    + rewrite Hord. reflexivity.
    + rewrite Htick. reflexivity.
    + change (quantity_of (vip_item 1)) with 1 in Hlen. lia.
Defined.

(** Against C6 as stated: a supplied price of 0 for two VIP tickets at
    50 gives an order of 100, not of 0 times 2. *)
Lemma zero_price_falls_back :
  let w' := snd (POST ids clock qr deliver
                   (cart alice [priced_item 2 0%float]) world) in
  map Order.total (World.orders w') = [100%float] /\
  PrimFloat.mul 0%float (Z2float 2) <> 100%float.
Proof.
  split; [vm_compute; reflexivity |].
  intros H. apply (f_equal PrimFloat.is_zero) in H. vm_compute in H.
  discriminate.
Qed.

(** Two VIP tickets with a price of 30 in the cart: an order of 30 times 2. *)
Lemma order_total_uses_truthy_price_witness :
  exists o,
    World.orders
      (snd (runProg ids clock qr deliver
              (POST_item alice (priced_item 2 30%float)) world)) = [o] /\
    Order.total o = PrimFloat.mul 30%float (Z2float 2) /\
    Order.total o = 60%float.
Proof.
  destruct (runProg ids clock qr deliver
              (POST_item alice (priced_item 2 30%float)) world)
    as [r w'] eqn:Hrun.
  destruct (order_total_uses_truthy_price ids clock qr deliver world alice
              (priced_item 2 30%float) r w' Hrun)
    as (new & Hord & _ & Hall).
  destruct new as [| o new].
  - vm_compute in Hrun. injection Hrun as _ <-. discriminate.
  - inversion Hall
      as [| ? ? [Hone (eventId & ev & t & _ & _ & _ & _ & Htotal)] _];
      subst.
    injection Hone as ->. exists o.
    split; [exact Hord |]. split; [exact Htotal |].
    rewrite Htotal. vm_compute. reflexivity.
Defined.

(** A quantity beyond 63 bits is the number JavaScript has for it: the
    total of an unpriced VIP item of quantity [-2^63] is 50 times
    -9223372036854775808, exactly. *)
Example total_of_a_large_quantity :
  orderTotal None vip (- 2 ^ 63) = (-461168601842738790400)%float /\
  Z2float (2 ^ 53 + 1) = 9007199254740992%float /\
  Z2float (10 ^ 400) = infinity.
Proof. vm_compute. repeat split. Qed.

(** Against C7 as stated: a name matching no ticket type is answered
    400, not 404. *)
Lemma unknown_name_is_400 :
  let '(response, w') :=
    POST ids clock qr deliver (cart alice [gold_item]) world in
  response = error_response "No ticket types available for this event" 400 /\
  Response.status response <> 404 /\
  w' = world.
Proof. vm_compute. repeat split. discriminate. Qed.

(** By name: "Gold" matches no type of the gala, "VIP" its first. *)
Lemma ticket_type_resolution_witness :
  runProg ids clock qr deliver (POST_item alice gold_item) world
  = (Some (inl (error_response
                  "No ticket types available for this event" 400)), world) /\
  resolveTicketType
    (EventWithTypes.mk gala (types_of_event "e1" world)) None (Some "VIP")
  = inr vip.
Proof.
  split.
  - destruct (ticket_type_resolution ids clock qr deliver world alice
                gold_item "e1" gala eq_refl) as (_ & Hname & _);
      [discriminate | reflexivity |].
    apply (Hname eq_refl "Gold" eq_refl). discriminate.
  - destruct (ticket_type_resolution ids clock qr deliver world alice
                (vip_item 1) "e1" gala eq_refl) as (_ & Hname & _);
      [discriminate | reflexivity |].
    apply (Hname eq_refl "VIP" eq_refl). discriminate.
Defined.

(** Against C8 as stated: the order in the 201 response has no
    ["tickets"] member, though its ticket is in the table. *)
Lemma response_has_no_tickets :
  let '(response, w') :=
    POST ids clock qr deliver (cart alice [vip_item 1]) world in
  Response.status response = 201 /\
  (exists order,
      json_get "orders" (Response.body response) = Some (JArr [order]) /\
      json_get "id" order = Some (JStr "c0") /\
      json_get "tickets" order = None) /\
  map Ticket.orderId (World.tickets w') = ["c0"].
Proof.
  vm_compute. split; [reflexivity |]. split; [| reflexivity].
  eexists. repeat split.
Qed.

(** The two handlers of the overselling schedule mint different codes. *)
Lemma credentials_unique_witness :
  NoDup
    (map Ticket.qrCode
       (World.tickets
          (snd (interleave ids clock qr deliver stale_read
                  (map (fun request => Running (POST_try request))
                     [cart alice [vip_item 1]; cart bob [vip_item 1]])
                  one_left)))).
Proof.
  apply (credentials_unique ids clock qr deliver Scenario_ids_inj
           Scenario_qr_inj [cart alice [vip_item 1]; cart bob [vip_item 1]]
           stale_read one_left).
  split; [| split].
  - intros o [].
  - intros t [].
  - constructor.
Defined.

End Evaluation.

(* ================================================================== *)
(** ** More of the purchase handler *)

Section Purchases.

Variable cuid : nat -> string.
Variable Date_now : nat -> Z.
Variable generateQRCode : QRData.t -> option string.
Variable sendTicketEmail : nat -> EmailArgs.t -> Delivery.

#[local] Abbreviation run := (runProg cuid Date_now generateQRCode sendTicketEmail).
#[local] Abbreviation exec' := (exec cuid Date_now generateQRCode sendTicketEmail).
#[local] Abbreviation POST' :=
  (POST cuid Date_now generateQRCode sendTicketEmail).
#[local] Abbreviation all_through' :=
  (all_through cuid Date_now generateQRCode sendTicketEmail).
#[local] Abbreviation interleave' :=
  (interleave cuid Date_now generateQRCode sendTicketEmail).
#[local] Abbreviation step' := (step cuid Date_now generateQRCode sendTicketEmail).

(** *** Checks on the request *)

(** X1.  A request without a session, or whose session user has no id, is
    answered 401 "Unauthorized" whatever its body, and the body is not
    even read; an authenticated request whose body is not JSON is
    answered by the [catch] block (500); one whose [items] is not an
    array or is empty is answered 400 "No items in order".  In all three
    cases the world is left as it was. *)
Theorem refused_request_writes_nothing request w :
  ((Request.session request = None \/
    exists user, Request.session request = Some user /\
                 SessionUser.id user = "") ->
   POST' request w = (error_response "Unauthorized" 401, w)) /\
  (forall user,
      Request.session request = Some user -> SessionUser.id user <> "" ->
      (Request.body request = None -> POST' request w = (caught, w)) /\
      (forall body,
          Request.body request = Some body ->
          Body.items body = None \/ Body.items body = Some [] ->
          POST' request w = (error_response "No items in order" 400, w))).
Proof.
  unfold POST, POST_try. cbn [bind await runProg exec]. split.
  - intros [-> | (user & -> & Hid)]; [reflexivity |].
    now rewrite Hid.
  - intros user -> Hid.
    assert (Ht : truthy_str (Some (SessionUser.id user)) = true).
    { simpl. now destruct (String.eqb_spec (SessionUser.id user) ""). }
    rewrite Ht. cbn [bind await runProg exec]. split.
    + now intros ->.
    + intros body -> [-> | ->]; reflexivity.
Qed.

(** *** Early returns of the loop body *)

Lemma early_response_is_error event ticketTypeId ticketType response :
  resolveTicketType event ticketTypeId ticketType = inl response ->
  exists msg status, response = error_response msg status.
Proof.
  unfold resolveTicketType.
  destruct (truthy_str ticketTypeId).
  - destruct (find _ _); [discriminate |]. intros [= <-]. eauto.
  - destruct (truthy_str ticketType).
    + destruct (find _ _); [discriminate |]. intros [= <-]. eauto.
    + destruct (hd_error _); [discriminate |]. intros [= <-]. eauto.
Qed.

Lemma run_POST_item_early w user item response w' :
  run (POST_item user item) w = (Some (inl response), w') ->
  w' = w /\
  (Response.status response = 400 \/ Response.status response = 404) /\
  exists msg status, response = error_response msg status.
Proof.
  intros Hrun. pose proof Hrun as Hcases.
  apply run_POST_item_cases in Hcases
    as [(r & [= <-] & -> & Hst)
       | (eventId & ev & ticketTypeObj & Heid & Hne & Hev & Hres & Hout)].
  - split; [reflexivity |]. split; [exact Hst |].
    revert Hrun. unfold POST_item.
    destruct (Item.eventId item) as [eventId |]; [| intros [= <-]; eauto].
    destruct (truthy_str (Some eventId)); [| intros [= <-]; eauto].
    cbn [bind await runProg exec].
    destruct (find_event eventId w) as [ev |]; [| intros [= <-]; eauto].
    destruct (resolveTicketType _ _ _) as [r' | t] eqn:Hres.
    + intros [= <-]. eapply early_response_is_error; eauto.
    + intros Hissue. apply run_issue_outcome in Hissue.
      inversion Hissue; subst. eauto.
  - inversion Hout; subst. split; [reflexivity |].
    split; [now left | eauto].
Qed.

(** X2.  Whenever the loop body returns a response of its own instead of
    an order, it has written nothing: the world is as before, the
    response is an error object with status 400 or 404.  An item without
    [eventId] (absent or empty) gets 400 "Missing eventId in item", an
    item naming no stored event gets 404 "Event not found". *)
Theorem early_return_writes_nothing w user item :
  (forall response w',
      run (POST_item user item) w = (Some (inl response), w') ->
      w' = w /\
      (Response.status response = 400 \/ Response.status response = 404) /\
      json_get "orders" (Response.body response) = None) /\
  (truthy_str (Item.eventId item) = false ->
   run (POST_item user item) w
   = (Some (inl (error_response "Missing eventId in item" 400)), w)) /\
  (forall eventId,
      Item.eventId item = Some eventId -> eventId <> "" ->
      find_event eventId w = None ->
      run (POST_item user item) w
      = (Some (inl (error_response "Event not found" 404)), w)).
Proof.
  split; [| split].
  - intros response w' Hrun.
    apply run_POST_item_early in Hrun as (-> & Hst & msg & status & ->).
    auto.
  - unfold POST_item. destruct (Item.eventId item) as [eventId |];
      [| reflexivity].
    now intros ->.
  - intros eventId Heid Hne Hev. unfold POST_item. rewrite Heid.
    assert (Ht : truthy_str (Some eventId) = true).
    { simpl. now destruct (String.eqb_spec eventId ""). }
    rewrite Ht. cbn [bind await runProg exec]. now rewrite Hev.
Qed.

(** *** Carts of several items *)

Lemma POST_items_through user items w cs w1 :
  all_through' user items w cs w1 ->
  forall rest createdOrders,
    run (POST_items user (items ++ rest) createdOrders) w
    = run (POST_items user rest (createdOrders ++ cs)) w1.
Proof.
  induction 1 as [w | item items w c w1 cs w2 Hrun _ IH];
    intros rest createdOrders.
  - now rewrite app_nil_r.
  - cbn [app POST_items]. rewrite run_bind, Hrun.
    rewrite IH, <- app_assoc. reflexivity.
Qed.

Lemma all_through_orders user items w cs w1 :
  all_through' user items w cs w1 ->
  World.orders w1 = (World.orders w ++ map OrderWithEvent.order cs)%list /\
  List.length cs = List.length items.
Proof.
  induction 1 as [w | item items w c w1 cs w2 Hrun _ [IHo IHl]].
  - now rewrite app_nil_r.
  - apply run_POST_item_orders in Hrun as (new & Ho & _ & ->).
    split; [| simpl; now rewrite IHl].
    rewrite IHo, Ho, <- app_assoc. reflexivity.
Qed.

(** X3.  No item is rolled back for a later one.  When the first items
    of a cart go through and the next one is refused, the request is
    answered with that item's error response, which names no order, and
    the world is the one the earlier items left: their orders stay in
    the table. *)
Theorem earlier_items_stay_committed user items item rest createdOrders
    w cs w1 response w2 :
  all_through' user items w cs w1 ->
  run (POST_item user item) w1 = (Some (inl response), w2) ->
  run (POST_items user (items ++ item :: rest) createdOrders) w
  = (Some response, w1) /\
  World.orders w1 = (World.orders w ++ map OrderWithEvent.order cs)%list /\
  List.length cs = List.length items /\
  json_get "orders" (Response.body response) = None.
Proof.
  intros Hthrough Hitem.
  pose proof (run_POST_item_early _ _ _ _ _ Hitem)
    as (-> & _ & msg & status & ->).
  destruct (all_through_orders _ _ _ _ _ Hthrough) as [Ho Hl].
  repeat split; auto.
  rewrite (POST_items_through _ _ _ _ _ Hthrough).
  cbn [POST_items]. now rewrite run_bind, Hitem.
Qed.

(** *** What the handler never does to the tables *)

Lemma same_event_refl e : same_event_but_sold e e.
Proof. now destruct e. Qed.

Lemma same_type_refl t : same_type_but_sold t t.
Proof. now destruct t. Qed.

Lemma grown_refl w : grown w w.
Proof.
  repeat split.
  - apply Forall2_same, same_event_refl.
  - apply Forall2_same, same_type_refl.
  - exists []. now rewrite app_nil_r.
  - exists []. now rewrite app_nil_r.
Qed.

Lemma Forall2_compose {A} (R : A -> A -> Prop) :
  (forall a b c, R a b -> R b c -> R a c) ->
  forall l1 l2 l3, Forall2 R l1 l2 -> Forall2 R l2 l3 -> Forall2 R l1 l3.
Proof.
  intros HR l1 l2 l3 H12. revert l3.
  induction H12 as [| a b l1 l2 Hab _ IH]; intros l3 H23;
    inversion H23; subst; constructor; eauto.
Qed.

Lemma grown_trans w1 w2 w3 : grown w1 w2 -> grown w2 w3 -> grown w1 w3.
Proof.
  intros (He & Ht & [no Ho] & [nt Hk]) (He' & Ht' & [no' Ho'] & [nt' Hk']).
  repeat split.
  - eapply Forall2_compose; [| exact He | exact He'].
    unfold same_event_but_sold. intros [] [] []; cbn.
    intros [= -> -> -> -> -> -> -> -> -> -> -> ->]
           [= -> -> -> -> -> -> -> -> -> -> -> ->]. reflexivity.
  - eapply Forall2_compose; [| exact Ht | exact Ht'].
    unfold same_type_but_sold. intros [] [] []; cbn.
    intros [= -> -> -> -> -> ->] [= -> -> -> -> -> ->]. reflexivity.
  - exists (no ++ no')%list. now rewrite Ho', Ho, app_assoc.
  - exists (nt ++ nt')%list. now rewrite Hk', Hk, app_assoc.
Qed.

Lemma increment_soldCount_same id n rows :
  Forall2 same_type_but_sold rows (increment_soldCount id n rows).
Proof.
  induction rows as [| t rows IH]; cbn [increment_soldCount map];
    constructor; [| exact IH].
  destruct (String.eqb _ _); [now destruct t | apply same_type_refl].
Qed.

Lemma increment_soldTickets_same id n rows :
  Forall2 same_event_but_sold rows (increment_soldTickets id n rows).
Proof.
  induction rows as [| e rows IH]; cbn [increment_soldTickets map];
    constructor; [| exact IH].
  destruct (String.eqb _ _); [now destruct e | apply same_event_refl].
Qed.

Lemma exec_grown {X} (op : Op X) w : grown w (snd (exec' op w)).
Proof.
  assert (Hsame : forall w0,
             World.events w0 = World.events w ->
             World.ticketTypes w0 = World.ticketTypes w ->
             World.orders w0 = World.orders w ->
             World.tickets w0 = World.tickets w -> grown w w0).
  { intros w0 He Ht Ho Hk. unfold grown. rewrite He, Ht, Ho, Hk.
    apply grown_refl. }
  destruct op; cbn [exec].
  - now apply Hsame.
  - now apply Hsame.
  - now apply Hsame.
  - destruct (find_event _ w); [| now apply Hsame].
    cbn [snd]. repeat split; cbn [World.events World.ticketTypes
                                  World.orders World.tickets].
    + apply Forall2_same, same_event_refl.
    + apply Forall2_same, same_type_refl.
    + eauto.
    + exists []. now rewrite app_nil_r.
  - now apply Hsame.
  - now apply Hsame.
  - cbn [snd]. repeat split; cbn [World.events World.ticketTypes
                                  World.orders World.tickets].
    + apply Forall2_same, same_event_refl.
    + apply Forall2_same, same_type_refl.
    + exists []. now rewrite app_nil_r.
    + eauto.
  - now apply Hsame.
  - destruct (has_ticketType _ w); [| now apply Hsame].
    cbn [snd]. repeat split; cbn [World.events World.ticketTypes
                                  World.orders World.tickets].
    + apply Forall2_same, same_event_refl.
    + apply increment_soldCount_same.
    + exists []. now rewrite app_nil_r.
    + exists []. now rewrite app_nil_r.
  - destruct (find_event _ w); [| now apply Hsame].
    cbn [snd]. repeat split; cbn [World.events World.ticketTypes
                                  World.orders World.tickets].
    + apply increment_soldTickets_same.
    + apply Forall2_same, same_type_refl.
    + exists []. now rewrite app_nil_r.
    + exists []. now rewrite app_nil_r.
Qed.

Lemma step_grown t w : grown w (snd (step' t w)).
Proof.
  destruct t as [[r | X op k] | r]; cbn [step snd]; try apply grown_refl.
  pose proof (exec_grown op w) as H.
  destruct (exec' op w) as [[x |] w']; exact H.
Qed.

Lemma interleave_grown :
  forall schedule tasks w, grown w (snd (interleave' schedule tasks w)).
Proof.
  induction schedule as [| i rest IH]; intros tasks w; cbn [interleave].
  - apply grown_refl.
  - destruct (nth_error tasks i) as [t |]; [| apply IH].
    pose proof (step_grown t w) as H.
    destruct (step' t w) as [t' w']. cbn [snd] in H.
    eapply grown_trans; [exact H | apply IH].
Qed.

(** X4.  However the handlers of any number of purchase requests are
    interleaved, no order and no ticket is removed or altered (the two
    tables are only extended at the end), no event and no ticket type is
    added, removed or moved, and of an event or a ticket type nothing
    but the counter ([soldTickets], [soldCount]) changes. *)
Theorem tables_only_grow requests schedule w :
  grown w
    (snd (interleave' schedule
            (map (fun request => Running (POST_try request)) requests) w)).
Proof. apply interleave_grown. Qed.

(** *** The ticket rows and the order in the response *)

Lemma minted_fields eventId user orderId ticketTypeObj :
  forall todo i tick l,
    minted Date_now generateQRCode eventId user orderId ticketTypeObj
      todo i tick = Some l ->
    Forall (fun d =>
              TicketData.type d = TicketType.name ticketTypeObj /\
              TicketData.price d = TicketType.price ticketTypeObj /\
              TicketData.eventId d = eventId /\
              TicketData.userId d = SessionUser.id user /\
              TicketData.ticketTypeId d = TicketType.id ticketTypeObj) l.
Proof.
  induction todo as [| todo IH]; intros i tick l Hm; simpl in Hm.
  - injection Hm as <-. constructor.
  - destruct (generateQRCode _); [| discriminate].
    destruct (minted _ _ _ _ _ _ todo _ _) as [rest |] eqn:Hr;
      [| discriminate].
    injection Hm as <-. constructor; [simpl; auto | eapply IH; eauto].
Qed.

(** X5.  However the processing of a line item ends, the ticket rows it
    wrote are unused ([isUsed] false, no [usedAt]), belong to the buyer
    and to the event the item names, and carry the id, the name and the
    price of one ticket type of that event as stored: a price sent in the
    cart reaches the order total only, never a ticket. *)
Theorem tickets_carry_type_price w user item r w' :
  run (POST_item user item) w = (r, w') ->
  exists new,
    World.tickets w' = (World.tickets w ++ new)%list /\
    Forall (fun t =>
              Ticket.isUsed t = false /\ Ticket.usedAt t = None /\
              Ticket.userId t = SessionUser.id user /\
              Item.eventId item = Some (Ticket.eventId t) /\
              exists ticketTypeObj,
                In ticketTypeObj (World.ticketTypes w) /\
                TicketType.eventId ticketTypeObj = Ticket.eventId t /\
                Ticket.ticketTypeId t = Some (TicketType.id ticketTypeObj) /\
                Ticket.type t = TicketType.name ticketTypeObj /\
                Ticket.price t = TicketType.price ticketTypeObj) new.
Proof.
  intros Hrun.
  assert (Hnone : forall w0, World.tickets w0 = World.tickets w ->
            exists new,
              World.tickets w0 = (World.tickets w ++ new)%list /\
              Forall (fun t =>
                Ticket.isUsed t = false /\ Ticket.usedAt t = None /\
                Ticket.userId t = SessionUser.id user /\
                Item.eventId item = Some (Ticket.eventId t) /\
                exists ticketTypeObj,
                  In ticketTypeObj (World.ticketTypes w) /\
                  TicketType.eventId ticketTypeObj = Ticket.eventId t /\
                  Ticket.ticketTypeId t
                  = Some (TicketType.id ticketTypeObj) /\
                  Ticket.type t = TicketType.name ticketTypeObj /\
                  Ticket.price t = TicketType.price ticketTypeObj) new).
  { intros w0 ->. exists []. now rewrite app_nil_r. }
  apply run_POST_item_cases in Hrun
    as [(response & _ & -> & _)
       | (eventId & ev & ticketTypeObj & Hid & _ & _ & Hres & Hout)].
  { now apply Hnone. }
  apply resolveTicketType_In in Hres. cbn [EventWithTypes.ticketTypes] in Hres.
  apply types_of_event_In in Hres as [Hin Hev].
  assert (Hrows : forall next l,
            minted Date_now generateQRCode eventId user
              (cuid (World.cuids w)) ticketTypeObj
              (Z.to_nat (quantity_of item)) 0 (World.ticks w) = Some l ->
            Forall (fun t =>
              Ticket.isUsed t = false /\ Ticket.usedAt t = None /\
              Ticket.userId t = SessionUser.id user /\
              Item.eventId item = Some (Ticket.eventId t) /\
              exists ticketTypeObj,
                In ticketTypeObj (World.ticketTypes w) /\
                TicketType.eventId ticketTypeObj = Ticket.eventId t /\
                Ticket.ticketTypeId t = Some (TicketType.id ticketTypeObj) /\
                Ticket.type t = TicketType.name ticketTypeObj /\
                Ticket.price t = TicketType.price ticketTypeObj)
              (ticket_rows cuid next l)).
  { intros next l Hm. apply minted_fields in Hm.
    unfold ticket_rows. eapply mapi_Forall; [| exact Hm].
    intros d n (Ht & Hp & He & Hu & Hk). cbn.
    rewrite He, Hu, Hk, Ht, Hp. repeat split; auto.
    exists ticketTypeObj. repeat split; auto. }
  destruct Hout; try (now apply Hnone);
    cbn [issued mailed persisted World.tickets]; eauto.
Qed.

(** X6.  The order of a line item that went through is returned with
    the event as it was read when the order was created: the event
    nested in the response is the stored row of before, while the stored
    row now counts the item's quantity more [soldTickets]. *)
Theorem response_event_is_stale w user item c w' :
  run (POST_item user item) w = (Some (inr c), w') ->
  exists eventId,
    Item.eventId item = Some eventId /\
    find_event eventId w = Some (OrderWithEvent.event c) /\
    find_event eventId w'
    = Some (Event.set_soldTickets
              (Event.soldTickets (OrderWithEvent.event c) + quantity_of item)
              (OrderWithEvent.event c)).
Proof.
  intros Hrun.
  apply run_POST_item_cases in Hrun
    as [(response & [=] & _)
       | (eventId & ev & ticketTypeObj & Hid & _ & Hev & _ & Hout)].
  exists eventId. inversion Hout; subst.
  cbn [OrderWithEvent.event]. repeat split; auto.
  unfold find_event. cbn [issued World.events].
  rewrite find_increment_soldTickets.
  match goal with
  | H : find_event _ _ = Some _ |- _ => unfold find_event in H; now rewrite H
  end.
Qed.

(** *** The mail of a line item *)

Lemma digits_then_at (d d' : Decimal.uint) (r r' : string) :
  NilEmpty.string_of_uint d ++ String "@" r
  = NilEmpty.string_of_uint d' ++ String "@" r' ->
  d = d'.
Proof.
  revert d'. induction d as [| d IH | d IH | d IH | d IH | d IH | d IH
                             | d IH | d IH | d IH | d IH];
    intros [| d' | d' | d' | d' | d' | d' | d' | d' | d' | d'] H;
    simpl in H; try discriminate;
    injection H as H;
    try (apply IH in H as ->); subst; auto.
Qed.

Lemma cid_inj (n m : nat) :
  "qrcode" ++ nat_to_string (n + 1) ++ "@tickets.qrgate.app"
  = "qrcode" ++ nat_to_string (m + 1) ++ "@tickets.qrgate.app" ->
  n = m.
Proof.
  cbn [append]. intros [= H]. unfold nat_to_string in H.
  apply digits_then_at in H.
  apply (f_equal Nat.of_uint) in H.
  rewrite !DecimalNat.Unsigned.of_to in H. lia.
Qed.

Lemma mapi_seq {A B} (f : A -> nat -> B) (g : B -> string)
    (h : nat -> string) xs :
  (forall x n, g (f x n) = h n) ->
  forall start,
    map g (mapi f start xs) = map h (seq start (List.length xs)).
Proof.
  intros Hg. induction xs as [| x xs IH]; intros start; cbn; [reflexivity |].
  now rewrite Hg, IH.
Qed.

Lemma NoDup_map_injective {A B} (f : A -> B) (l : list A) :
  (forall a b, f a = f b -> a = b) -> NoDup l -> NoDup (map f l).
Proof.
  intros Hf. induction 1 as [| a l Hin _ IH]; cbn; constructor; auto.
  intros Hm. apply in_map_iff in Hm as (b & Hb & Hl).
  apply Hf in Hb as ->. contradiction.
Qed.

Lemma nth_error_mapi {A B} (f : A -> nat -> B) xs :
  forall start k,
    nth_error (mapi f start xs) k
    = option_map (fun x => f x (start + k)%nat) (nth_error xs k).
Proof.
  induction xs as [| x xs IH]; intros start [| k]; cbn; auto.
  - now rewrite Nat.add_0_r.
  - rewrite IH. now rewrite Nat.add_succ_r.
Qed.

(** X7.  The mail of a line item has one ticket entry and one attachment
    per ticket, in the order of the tickets; the [qrCode] of the k-th
    entry is the URL [cid:] of the content id of the k-th attachment, and
    no two attachments share a content id, so every inline image of the
    mail refers to exactly one attachment. *)
Theorem mail_references_attachments user order ticketsToCreate :
  let mail := email_of user order ticketsToCreate in
  List.length (EmailArgs.tickets mail) = List.length ticketsToCreate /\
  List.length (EmailArgs.attachments mail) = List.length ticketsToCreate /\
  (forall k t,
      nth_error (EmailArgs.tickets mail) k = Some t ->
      exists a,
        nth_error (EmailArgs.attachments mail) k = Some a /\
        EmailTicket.qrCode t = "cid:" ++ Attachment.cid a) /\
  NoDup (map Attachment.cid (EmailArgs.attachments mail)).
Proof.
  cbn [email_of EmailArgs.tickets EmailArgs.attachments].
  unfold attachments_of. rewrite !mapi_length.
  split; [reflexivity |]. split; [reflexivity |]. split.
  - intros k t. rewrite !nth_error_mapi.
    destruct (nth_error ticketsToCreate k) as [d |]; [| discriminate].
    cbn [option_map]. intros [= <-]. eexists. split; [reflexivity |].
    reflexivity.
  - rewrite (mapi_seq _ Attachment.cid
               (fun n => "qrcode" ++ nat_to_string (n + 1)
                         ++ "@tickets.qrgate.app")); [| reflexivity].
    apply NoDup_map_injective; [apply cid_inj | apply seq_NoDup].
Qed.

Lemma split_comma_free (a : string) :
  comma_free a = true -> split "," a = [a].
Proof.
  induction a as [| c a IH]; cbn [comma_free split]; [reflexivity |].
  intros H. apply andb_prop in H as [Hc Ha].
  apply negb_true_iff in Hc. rewrite Hc, (IH Ha). reflexivity.
Qed.

Lemma split_at_comma (a r : string) :
  comma_free a = true -> split "," (a ++ String "," r) = a :: split "," r.
Proof.
  induction a as [| c a IH]; cbn [comma_free split append].
  - reflexivity.
  - intros H. apply andb_prop in H as [Hc Ha].
    apply negb_true_iff in Hc. rewrite Hc, (IH Ha). reflexivity.
Qed.

(** X8.  The k-th attachment is made from the k-th ticket and is marked
    base64.  Its content is what follows the comma of the ticket's
    [qrCode] when that is a data URL (one comma, between header and
    payload), and is missing ([undefined]) when the [qrCode] has no
    comma. *)
Theorem attachment_content ticketsToCreate k d :
  nth_error ticketsToCreate k = Some d ->
  exists a,
    nth_error (attachments_of ticketsToCreate) k = Some a /\
    Attachment.encoding a = "base64" /\
    (comma_free (TicketData.qrCode d) = true ->
     Attachment.content a = None) /\
    (forall header payload,
        TicketData.qrCode d = header ++ "," ++ payload ->
        comma_free header = true -> comma_free payload = true ->
        Attachment.content a = Some payload).
Proof.
  intros Hk. unfold attachments_of. rewrite nth_error_mapi, Hk.
  cbn [option_map]. eexists. split; [reflexivity |].
  cbn [Attachment.encoding Attachment.content]. split; [reflexivity |].
  split.
  - intros Hfree. now rewrite split_comma_free.
  - intros header payload -> Hh Hp. cbn [append].
    rewrite split_at_comma, split_comma_free; auto.
Qed.

(** *** The counters *)







Lemma counting_bind {A B} (p : Prog A) (f : A -> Prog B) :
  counting p -> (forall a, counting (f a)) -> counting (bind p f).
Proof.
  intros Hp Hf. induction p as [a | X op k IH]; cbn [bind counting] in *.
  - apply Hf.
  - destruct Hp as [Hop Hk]. split; [exact Hop |]. intros x Hx.
    apply IH, Hk, Hx.
Qed.

Lemma counting_mintTickets eventId user orderId ticketTypeObj :
  forall todo i ticketsToCreate,
    counting (mintTickets eventId user orderId ticketTypeObj todo i
                ticketsToCreate).
Proof.
  induction todo as [| todo IH]; intros i l; cbn; auto.
Qed.

Lemma counting_issue user eventId price quantity ticketTypeObj :
  0 <= quantity ->
  counting (issue user eventId price quantity ticketTypeObj).
Proof.
  intros Hq. unfold issue. destruct (_ <? _); [exact I |].
  cbn [bind await counting op_counts op_yields]. split; [exact I |].
  intros order _. apply counting_bind; [apply counting_mintTickets |].
  intros l. cbn. tauto.
Qed.

Lemma counting_POST_item user item :
  0 <= quantity_of item -> counting (POST_item user item).
Proof.
  intros Hq. unfold POST_item.
  destruct (Item.eventId item) as [eventId |]; [| exact I].
  destruct (truthy_str _); [| exact I].
  cbn [bind await counting op_counts op_yields]. split; [exact I |].
  intros [event |] _; [| exact I].
  destruct (resolveTicketType _ _ _); [exact I |].
  now apply counting_issue.
Qed.

Lemma counting_POST_items user :
  forall items createdOrders,
    Forall (fun item => 0 <= quantity_of item) items ->
    counting (POST_items user items createdOrders).
Proof.
  induction items as [| item rest IH]; intros createdOrders Hall;
    cbn [POST_items]; [exact I |].
  inversion Hall; subst.
  apply counting_bind; [now apply counting_POST_item |].
  intros [response | order]; [exact I | now apply IH].
Qed.

Lemma counting_POST_try request :
  counted_cart request -> counting (POST_try request).
Proof.
  intros Hcart. unfold POST_try.
  cbn [bind await counting op_counts op_yields]. split; [exact I |].
  intros [user |] _; [| exact I].
  destruct (truthy_str _); [| exact I].
  cbn [bind await counting op_counts op_yields]. split; [exact I |].
  intros body Hbody.
  destruct (Body.items body) as [[| item rest] |] eqn:Hitems; try exact I.
  apply counting_POST_items. eapply Hcart; eauto.
Qed.

Lemma counters_grow_refl w : counters_grow w w.
Proof. split; apply Forall2_same; intros; split; auto; lia. Qed.

Lemma counters_grow_trans w1 w2 w3 :
  counters_grow w1 w2 -> counters_grow w2 w3 -> counters_grow w1 w3.
Proof.
  intros [Ht He] [Ht' He'].
  split; (eapply Forall2_compose; [| eassumption | eassumption]); cbn;
    intros a b c [-> ?] [-> ?]; split; auto; lia.
Qed.

Lemma exec_counts {X} (op : Op X) w :
  op_counts op ->
  counters_grow w (snd (exec' op w)) /\
  forall x, fst (exec' op w) = Some x -> op_yields op x.
Proof.
  assert (Hsame : forall w0,
             World.ticketTypes w0 = World.ticketTypes w ->
             World.events w0 = World.events w -> counters_grow w w0).
  { intros w0 Ht He. unfold counters_grow. rewrite Ht, He.
    apply counters_grow_refl. }
  destruct op; cbn [exec op_counts op_yields fst snd]; intros Hn;
    try (split; [now apply Hsame | auto]).
  - destruct (find_event _ w); cbn [fst snd]; split; auto;
      now apply Hsame.
  - destruct (has_ticketType _ w); cbn [fst snd]; split; auto;
      try (now apply Hsame).
    split; cbn [World.ticketTypes World.events].
    + now apply increment_soldCount_grows.
    + apply Forall2_same; intros; split; auto; lia.
  - destruct (find_event _ w); cbn [fst snd]; split; auto;
      try (now apply Hsame).
    split; cbn [World.ticketTypes World.events].
    + apply Forall2_same; intros; split; auto; lia.
    + now apply increment_soldTickets_grows.
Qed.

Lemma step_counts t w :
  task_counting t ->
  task_counting (fst (step' t w)) /\ counters_grow w (snd (step' t w)).
Proof.
  destruct t as [[r | X op k] | r]; cbn [step fst snd task_counting counting];
    intros Hc; try (split; [exact I | apply counters_grow_refl]).
  destruct Hc as [Hop Hk].
  destruct (exec_counts op w Hop) as [Hg Hy].
  destruct (exec' op w) as [[x |] w']; cbn [fst snd] in *.
  - split; [apply Hk, Hy; reflexivity | exact Hg].
  - split; [exact I | exact Hg].
Qed.

Lemma set_nth_Forall {A} (P : A -> Prop) x :
  P x -> forall l n, Forall P l -> Forall P (set_nth n x l).
Proof.
  intros Hx. induction l as [| y l IH]; intros [| n] Hl; cbn; auto;
    inversion Hl; subst; constructor; auto.
Qed.

Lemma interleave_counts :
  forall schedule tasks w,
    Forall task_counting tasks ->
    counters_grow w (snd (interleave' schedule tasks w)).
Proof.
  induction schedule as [| i rest IH]; intros tasks w Hall;
    cbn [interleave].
  - apply counters_grow_refl.
  - destruct (nth_error tasks i) as [t |] eqn:Hi; [| now apply IH].
    assert (Ht : task_counting t).
    { rewrite Forall_forall in Hall. eapply Hall, nth_error_In, Hi. }
    destruct (step_counts t w Ht) as [Ht' Hg].
    destruct (step' t w) as [t' w']. cbn [fst snd] in *.
    eapply counters_grow_trans; [exact Hg |].
    apply IH. now apply set_nth_Forall.
Qed.

(** X10.  When every line item of every request has a quantity of 0 or
    more, no interleaving of the requests' handlers lowers a [soldCount]
    or a [soldTickets]: the rows of the two tables stay in place and
    each counter ends at least where it started. *)
Theorem counted_requests_never_decrement requests schedule w :
  Forall counted_cart requests ->
  counters_grow w
    (snd (interleave' schedule
            (map (fun request => Running (POST_try request)) requests) w)).
Proof.
  intros Hall. apply interleave_counts.
  apply Forall_map. eapply Forall_impl; [| exact Hall].
  intros request. apply counting_POST_try.
Qed.

(** *** A line item that throws, and the mail of one that does not *)

(** X11.  When a [generateQRCode] of the minting loop rejects, the line
    item throws (the request is answered by the [catch] block) after its
    order row was written and before anything else was: the order stays
    in the table without a ticket, no mail is sent and no counter is
    touched. *)
Theorem rejected_credential_leaves_order w user item eventId ev
    ticketTypeObj :
  Item.eventId item = Some eventId ->
  eventId <> "" ->
  find_event eventId w = Some ev ->
  resolveTicketType (EventWithTypes.mk ev (types_of_event eventId w))
    (Item.ticketTypeId item) (Item.ticketType item) = inr ticketTypeObj ->
  quantity_of item
  <= TicketType.quantity ticketTypeObj - TicketType.soldCount ticketTypeObj ->
  minted Date_now generateQRCode eventId user (cuid (World.cuids w))
    ticketTypeObj (Z.to_nat (quantity_of item)) 0 (World.ticks w) = None ->
  exists w',
    run (POST_item user item) w = (None, w') /\
    World.orders w'
    = (World.orders w
       ++ [new_order cuid w user eventId (Item.price item)
             (quantity_of item) ticketTypeObj])%list /\
    World.tickets w' = World.tickets w /\
    World.mails w' = World.mails w /\
    World.ticketTypes w' = World.ticketTypes w /\
    World.events w' = World.events w.
Proof.
  intros Hitem Hne Hev Hres Hq Hminted.
  rewrite (run_POST_item_resolved _ _ _ _ _ _ _ _ _ _ Hitem Hne Hev Hres).
  destruct (run (issue user eventId (Item.price item) (quantity_of item)
                   ticketTypeObj) w) as [r w'] eqn:Hrun.
  apply run_issue_outcome in Hrun.
  destruct Hrun; try congruence; try lia.
  eexists. split; [reflexivity |]. cbn. auto.
Qed.

(** X12.  A line item that went through has sent one mail, to the
    session user, about the event as returned with the order; the mail
    lists the ticket rows the item wrote, one entry and one attachment
    per row in their order, each entry with the type and the price of
    its row and each attachment with what follows the first comma of
    the row's [qrCode]. *)
Theorem one_mail_per_item w user item c w' :
  run (POST_item user item) w = (Some (inr c), w') ->
  exists mail sent new,
    World.mails w' = (World.mails w ++ [(mail, sent)])%list /\
    sent <> Rejected /\
    World.tickets w' = (World.tickets w ++ new)%list /\
    EmailArgs.user_name mail = SessionUser.name user /\
    EmailArgs.user_email mail = SessionUser.email user /\
    EmailArgs.event mail
    = EmailEvent.mk (Event.title (OrderWithEvent.event c))
        (Event.location (OrderWithEvent.event c))
        (Event.startDate (OrderWithEvent.event c))
        (Event.endDate (OrderWithEvent.event c)) /\
    map EmailTicket.type (EmailArgs.tickets mail) = map Ticket.type new /\
    map EmailTicket.price (EmailArgs.tickets mail) = map Ticket.price new /\
    map Attachment.content (EmailArgs.attachments mail)
    = map (fun t => nth_error (split "," (Ticket.qrCode t)) 1) new.
Proof.
  intros Hrun.
  apply run_POST_item_cases in Hrun
    as [(response & [=] & _)
       | (eventId & ev & ticketTypeObj & _ & _ & _ & _ & Hout)].
  inversion Hout as [| ev0 l _ _ _ _ Hsent Hc Hw' | | | |].
  clear Hout. do 3 eexists.
  split; [cbn [issued World.mails]; reflexivity |].
  split; [intros E; rewrite E in Hsent; discriminate |].
  split; [cbn [issued World.tickets]; reflexivity |].
  cbn [email_of EmailArgs.user_name EmailArgs.user_email EmailArgs.event
       EmailArgs.tickets EmailArgs.attachments OrderWithEvent.event].
  repeat split; auto; unfold ticket_rows, attachments_of.
  - rewrite (map_mapi _ EmailTicket.type TicketData.type) by reflexivity.
    now rewrite (map_mapi _ Ticket.type TicketData.type) by reflexivity.
  - rewrite (map_mapi _ EmailTicket.price TicketData.price) by reflexivity.
    now rewrite (map_mapi _ Ticket.price TicketData.price) by reflexivity.
  - rewrite (map_mapi _ Attachment.content
               (fun d => nth_error (split "," (TicketData.qrCode d)) 1))
      by reflexivity.
    now rewrite (map_mapi _ (fun t => nth_error (split "," (Ticket.qrCode t)) 1)
                   (fun d => nth_error (split "," (TicketData.qrCode d)) 1))
      by reflexivity.
Qed.

End Purchases.

(* ================================================================== *)
(** ** Whole requests: the orders written and the response *)

Section Requests.

Variable cuid : nat -> string.
Variable Date_now : nat -> Z.
Variable generateQRCode : QRData.t -> option string.
Variable sendTicketEmail : nat -> EmailArgs.t -> Delivery.

#[local] Abbreviation run := (runProg cuid Date_now generateQRCode sendTicketEmail).
#[local] Abbreviation POST' :=
  (POST cuid Date_now generateQRCode sendTicketEmail).
#[local] Abbreviation all_through' :=
  (all_through cuid Date_now generateQRCode sendTicketEmail).

(** *** Rows that differ in their counter only resolve alike *)



Lemma same_type_trans a b c :
  same_type_but_sold a b -> same_type_but_sold b c -> same_type_but_sold a c.
Proof.
  unfold same_type_but_sold. destruct a, b, c; cbn.
  intros [= -> -> -> -> -> ->] [= -> -> -> -> -> ->]. reflexivity.
Qed.

Lemma same_event_trans a b c :
  same_event_but_sold a b -> same_event_but_sold b c ->
  same_event_but_sold a c.
Proof.
  unfold same_event_but_sold. destruct a, b, c; cbn.
  intros [= -> -> -> -> -> -> -> -> -> -> -> ->]
         [= -> -> -> -> -> -> -> -> -> -> -> ->]. reflexivity.
Qed.




Lemma run_grown {A} (p : Prog A) :
  forall w, grown w (snd (run p w)).
Proof.
  induction p as [a | X op k IH]; intros w; cbn [runProg].
  - apply grown_refl.
  - pose proof (exec_grown cuid Date_now generateQRCode sendTicketEmail op w)
      as Hop.
    destruct (exec _ _ _ _ op w) as [[x |] w1]; cbn [snd] in *; auto.
    eapply grown_trans; [exact Hop | apply IH].
Qed.

(** *** The order rows of a request *)





(** *** The response to a request that is successful throughout *)

Lemma all_through_tickets user items w cs w' :
  all_through' user items w cs w' ->
  exists newer, World.tickets w' = (World.tickets w ++ newer)%list.
Proof.
  induction 1 as [w | item items w c w1 cs w2 Hrun _ [newer IH]].
  - exists []. now rewrite app_nil_r.
  - pose proof (run_grown (POST_item user item) w) as Hg.
    rewrite Hrun in Hg. destruct Hg as (_ & _ & _ & [new Hnew]).
    cbn [snd] in Hnew. exists (new ++ newer)%list.
    now rewrite IH, Hnew, app_assoc.
Qed.

Lemma all_through_entries user items w cs w' :
  all_through' user items w cs w' ->
  Forall2 (fun item c =>
             Item.eventId item = Some (Event.id (OrderWithEvent.event c)) /\
             Order.eventId (OrderWithEvent.order c)
             = Event.id (OrderWithEvent.event c) /\
             Order.userId (OrderWithEvent.order c) = SessionUser.id user /\
             exists before issued after,
               World.tickets w' = (before ++ issued ++ after)%list /\
               List.length issued = Z.to_nat (quantity_of item) /\
               Forall (fun t => Ticket.orderId t
                                = Order.id (OrderWithEvent.order c)) issued)
    items cs.
Proof.
  induction 1 as [w | item items w c w1 cs w2 Hrun Hrest IH];
    constructor.
  - apply all_through_tickets in Hrest as [newer Hnewer].
    apply run_POST_item_cases in Hrun
      as [(response & [=] & _)
         | (eventId & ev & ticketTypeObj & Hid & _ & Hev & _ & Hout)].
    inversion Hout as [| ev0 l Hev0 _ _ Hminted _ Hc Hw1 | | | |].
    clear Hout. subst w1. rewrite Hev in Hev0. injection Hev0 as <-.
    cbn [OrderWithEvent.order OrderWithEvent.event new_order Order.eventId
         Order.userId Order.id].
    unfold find_event in Hev. apply find_some in Hev as [_ Hev].
    apply String.eqb_eq in Hev. rewrite Hev.
    repeat split; auto.
    exists (World.tickets w), (ticket_rows cuid (S (World.cuids w)) l), newer.
    split; [| split].
    + rewrite Hnewer. cbn [issued World.tickets]. now rewrite app_assoc.
    + unfold ticket_rows. rewrite mapi_length.
      eapply minted_length, Hminted.
    + apply minted_refs in Hminted. unfold ticket_rows.
      eapply mapi_Forall; [| exact Hminted].
      intros d n (-> & _). reflexivity.
  - exact IH.
Qed.

Lemma POST_items_201 user :
  forall items createdOrders w response w',
    run (POST_items user items createdOrders) w = (Some response, w') ->
    Response.status response = 201 ->
    exists cs,
      all_through' user items w cs w' /\
      response = created_response (createdOrders ++ cs).
Proof.
  induction items as [| item rest IH];
    intros createdOrders w response w' Hrun H201.
  - cbn in Hrun. injection Hrun as <- <-.
    exists []. rewrite app_nil_r. split; [constructor | reflexivity].
  - cbn [POST_items] in Hrun. rewrite run_bind in Hrun.
    destruct (run (POST_item user item) w) as [[[r | c] |] w1] eqn:Hi.
    + cbn in Hrun. injection Hrun as <- <-.
      apply run_POST_item_early in Hi as (_ & Hst & _). lia.
    + apply IH in Hrun as (cs & Hthrough & ->); [| exact H201].
      exists (c :: cs). split; [econstructor; eauto |].
      now rewrite <- app_assoc.
    + discriminate.
Qed.

(** C8 (as amended).  A request is successful throughout when the loop
    body goes through for each line item of its cart in turn.  Such a
    request is answered with status 201 and the body
    [{ orders: [...] }], holding one entry per line item, in the order
    of the cart: the order row written for that item (the table has
    gained these rows, in this order), of the session user and for the
    event the item names, with that event nested under ["event"].  The
    tickets of the order, as many as the quantity of the item, are in
    the ticket table and are not in the entry, which has no ["tickets"]
    member.  Conversely a response of status 201 is the response to a
    request that was successful throughout. *)
Theorem response_lists_orders_with_event request user body items w :
  Request.session request = Some user ->
  SessionUser.id user <> "" ->
  Request.body request = Some body ->
  Body.items body = Some items ->
  items <> [] ->
  (forall cs w',
      all_through' user items w cs w' ->
      exists response,
        POST' request w = (response, w') /\
        Response.status response = 201 /\
        Response.body response
        = JObj [("orders", JArr (map OrderWithEvent.to_json cs))] /\
        World.orders w'
        = (World.orders w ++ map OrderWithEvent.order cs)%list /\
        Forall2 (fun item c =>
                   Item.eventId item
                   = Some (Event.id (OrderWithEvent.event c)) /\
                   Order.eventId (OrderWithEvent.order c)
                   = Event.id (OrderWithEvent.event c) /\
                   Order.userId (OrderWithEvent.order c)
                   = SessionUser.id user /\
                   json_get "id" (OrderWithEvent.to_json c)
                   = Some (JStr (Order.id (OrderWithEvent.order c))) /\
                   json_get "event" (OrderWithEvent.to_json c)
                   = Some (Event.to_json (OrderWithEvent.event c)) /\
                   json_get "tickets" (OrderWithEvent.to_json c) = None /\
                   exists before issued after,
                     World.tickets w' = (before ++ issued ++ after)%list /\
                     List.length issued = Z.to_nat (quantity_of item) /\
                     Forall (fun t => Ticket.orderId t
                                      = Order.id (OrderWithEvent.order c))
                       issued)
          items cs) /\
  (forall response w',
      POST' request w = (response, w') ->
      Response.status response = 201 ->
      exists cs,
        all_through' user items w cs w' /\
        response = created_response cs).
Proof.
  intros Hsession Hid Hbody Hitems Hne.
  assert (Hpost : POST' request w
                  = match run (POST_items user items []) w with
                    | (Some response, w') => (response, w')
                    | (None, w') => (caught, w')
                    end).
  { unfold POST, POST_try. cbn [bind await runProg exec].
    rewrite Hsession.
    destruct (truthy_str (Some (SessionUser.id user))) eqn:E.
    2:{ cbn in E. destruct (String.eqb _ _) eqn:E'; [| discriminate].
        apply String.eqb_eq in E'. contradiction. }
    cbn [bind await runProg exec]. rewrite Hbody, Hitems.
    destruct items as [| item rest]; [contradiction | reflexivity]. }
  split.
  - intros cs w' Hthrough. exists (created_response cs).
    split; [| split; [reflexivity | split; [reflexivity | split]]].
    + rewrite Hpost.
      pose proof (POST_items_through cuid Date_now generateQRCode
                    sendTicketEmail user items w cs w' Hthrough [] []) as H.
      rewrite app_nil_r in H. rewrite H. reflexivity.
    + eapply all_through_orders, Hthrough.
    + apply all_through_entries in Hthrough.
      eapply Forall2_impl; [| exact Hthrough].
      intros item c (He & Ho & Hu & Ht). repeat split; auto.
  - intros response w' Hp H201. rewrite Hpost in Hp.
    destruct (run (POST_items user items []) w) as [[r |] w1] eqn:Hrun.
    + injection Hp as <- <-.
      apply POST_items_201 in Hrun as (cs & Hthrough & ->); [| exact H201].
      now exists cs.
    + injection Hp as <- <-. discriminate.
Qed.

End Requests.

(* ================================================================== *)
(** ** Listing the orders (GET) *)

Section Listings.

Variable cuid : nat -> string.
Variable Date_now : nat -> Z.
Variable generateQRCode : QRData.t -> option string.
Variable sendTicketEmail : nat -> EmailArgs.t -> Delivery.
Variable parseInt : string -> option Z.
Variable newest_first : list Order.t -> list Order.t.
Variable irregular_findMany :
  World.t -> Where.t -> option Z -> option Z -> option (list OrderListing.t).
Variable irregular_count : World.t -> Where.t -> option Z.

(** The arrangement neither drops nor adds a row. *)
Hypothesis newest_first_perm : forall l, Permutation (newest_first l) l.

#[local] Abbreviation GET' :=
  (GET parseInt newest_first irregular_findMany irregular_count).
#[local] Abbreviation regular_query' := (regular_query parseInt).

(** The user's orders the query is about. *)
#[local] Abbreviation selected user status w :=
  (filter (matches (where_of user status)) (World.orders w)).

Lemma regular_where_of user status :
  (forall s, status = Some s -> s <> "" -> is_status s = true) ->
  regular_where (where_of user status) = true.
Proof.
  intros Hs. unfold regular_where, where_of. cbn [Where.status].
  destruct status as [s |]; cbn [truthy_str]; [| reflexivity].
  destruct (String.eqb s "") eqn:E; cbn [negb]; [reflexivity |].
  apply Hs; [reflexivity |]. intros ->. discriminate.
Qed.

Lemma is_count_true z : 0 <= z <= 2147483647 -> is_count z = true.
Proof. unfold is_count. lia. Qed.

Lemma truthy_id (x : string) : x <> "" -> truthy_str (Some x) = true.
Proof.
  intros Hx. cbn. destruct (String.eqb x "") eqn:E; [| reflexivity].
  apply String.eqb_eq in E. contradiction.
Qed.

Lemma GET_regular request user L P w :
  GetRequest.session request = Some user ->
  SessionUser.id user <> "" ->
  regular_query' request L P ->
  GET' request w
  = Listed
      (map (listing w)
         (firstn (Z.to_nat L)
            (skipn (Z.to_nat ((P - 1) * L))
               (newest_first (selected user (GetRequest.status request) w)))))
      (Pagination.mk (Some P) (Some L)
         (Z.of_nat
            (List.length (selected user (GetRequest.status request) w)))
         (pages_of
            (Z.of_nat
               (List.length (selected user (GetRequest.status request) w)))
            (Some L))).
Proof.
  intros Hsession Hid (HL & HP & HLr & HSr & Hstatus).
  unfold GET. rewrite Hsession, (truthy_id _ Hid), HL, HP.
  cbn [skip_of]. unfold findMany, count.
  rewrite (regular_where_of _ _ Hstatus), !is_count_true by assumption.
  reflexivity.
Qed.

Lemma In_firstn_skipn {A} (x : A) n k l :
  In x (firstn n (skipn k l)) -> In x l.
Proof.
  intros H. rewrite <- (firstn_skipn k l). apply in_or_app. right.
  rewrite <- (firstn_skipn n (skipn k l)). apply in_or_app. now left.
Qed.

Lemma In_selected user status w o :
  In o (selected user status w) ->
  In o (World.orders w) /\
  Order.userId o = SessionUser.id user /\
  (forall s, status = Some s -> s <> "" ->
             OrderStatus.to_string (Order.status o) = s).
Proof.
  intros H. apply filter_In in H as [Hin Hm]. split; [exact Hin |].
  unfold matches, where_of in Hm. cbn [Where.userId Where.status] in Hm.
  apply andb_prop in Hm as [Hu Hs]. apply String.eqb_eq in Hu.
  split; [exact Hu |]. intros s -> Hne.
  rewrite (truthy_id _ Hne) in Hs. now apply String.eqb_eq in Hs.
Qed.

(** X13.  A regular query of an authenticated caller is answered with
    orders of the table that all belong to the caller and, when a
    non-empty status is asked for, all have that status; each comes with
    the tickets that reference it, and only those.  The page and the
    limit of the answer are those of the query. *)
Theorem listing_scoped_to_caller request user L P w :
  GetRequest.session request = Some user ->
  SessionUser.id user <> "" ->
  regular_query' request L P ->
  exists orders total pages,
    GET' request w
    = Listed orders (Pagination.mk (Some P) (Some L) total pages) /\
    Forall (fun l =>
              l = listing w (OrderListing.order l) /\
              In (OrderListing.order l) (World.orders w) /\
              Order.userId (OrderListing.order l) = SessionUser.id user /\
              (forall s, GetRequest.status request = Some s -> s <> "" ->
                         OrderStatus.to_string
                           (Order.status (OrderListing.order l)) = s) /\
              (forall t, In t (World.tickets w) ->
                         Ticket.orderId t = Order.id (OrderListing.order l) <->
                         In t (map TicketWithType.ticket
                                 (OrderListing.tickets l))))
      orders.
Proof.
  intros Hsession Hid Hq. rewrite (GET_regular _ _ _ _ _ Hsession Hid Hq).
  do 3 eexists. split; [reflexivity |].
  apply Forall_forall. intros l Hl.
  apply in_map_iff in Hl as (o & <- & Ho).
  apply In_firstn_skipn in Ho.
  apply (Permutation_in _ (newest_first_perm _)) in Ho.
  apply In_selected in Ho as (Hin & Hu & Hs).
  cbn [listing OrderListing.order OrderListing.tickets].
  repeat split; auto.
  - intros Href. rewrite map_map. cbn [with_type TicketWithType.ticket].
    rewrite map_id. apply filter_In. split; [assumption |].
    now apply String.eqb_eq.
  - rewrite map_map. cbn [with_type TicketWithType.ticket].
    rewrite map_id. intros Ht. apply filter_In in Ht as [_ Ht].
    now apply String.eqb_eq in Ht.
Qed.

(** X14.  For a limit of 1 or more, [total] counts the caller's orders
    of the asked status whatever the page, [pages] is the least number
    of pages of that limit that hold them, and the page returned holds
    what is left of them after the pages before, up to the limit. *)
Theorem pagination_is_consistent request user L P w :
  GetRequest.session request = Some user ->
  SessionUser.id user <> "" ->
  regular_query parseInt request L P ->
  1 <= L ->
  exists orders total pages,
    GET parseInt newest_first irregular_findMany irregular_count request w
    = Listed orders (Pagination.mk (Some P) (Some L) total (Some pages)) /\
    total
    = Z.of_nat (List.length (selected user (GetRequest.status request) w)) /\
    (pages - 1) * L < total <= pages * L /\
    Z.of_nat (List.length orders)
    = Z.max 0 (Z.min L (total - (P - 1) * L)).
Proof.
  intros Hsession Hid Hq HL. rewrite (GET_regular _ _ _ _ _ Hsession Hid Hq).
  destruct Hq as (_ & _ & HLr & HSr & _).
  set (mine := selected user (GetRequest.status request) w).
  exists (map (listing w)
            (firstn (Z.to_nat L)
               (skipn (Z.to_nat ((P - 1) * L)) (newest_first mine)))),
    (Z.of_nat (List.length mine)), (- (- Z.of_nat (List.length mine) / L)).
  split; [| split; [reflexivity | split]].
  - unfold pages_of. destruct L; try lia. reflexivity.
  - pose proof (Z.div_mod (- Z.of_nat (List.length mine)) L ltac:(lia)).
    pose proof (Z.mod_pos_bound (- Z.of_nat (List.length mine)) L ltac:(lia)).
    nia.
  - rewrite length_map, length_firstn, length_skipn.
    rewrite (Permutation_length (newest_first_perm mine)). lia.
Qed.

(** X15.  A limit of 0 is taken as such: the answer lists no order and,
    the number of pages being a division by zero, its [pages] is
    [null]. *)
Theorem zero_limit_lists_nothing request user P w :
  GetRequest.session request = Some user ->
  SessionUser.id user <> "" ->
  regular_query parseInt request 0 P ->
  exists total,
    GET parseInt newest_first irregular_findMany irregular_count request w
    = Listed [] (Pagination.mk (Some P) (Some 0) total None).
Proof.
  intros Hsession Hid Hq. rewrite (GET_regular _ _ _ _ _ Hsession Hid Hq).
  eexists. reflexivity.
Qed.

(** X16.  Parameters that are missing or empty take their defaults: the
    answer is page 1 with a limit of 10, and an empty [status] is no
    filter, so that the caller's orders of every status are counted and
    listed. *)
Theorem bare_request_takes_defaults user limit page status w :
  SessionUser.id user <> "" ->
  parseInt "10" = Some 10 -> parseInt "1" = Some 1 ->
  limit = None \/ limit = Some "" ->
  page = None \/ page = Some "" ->
  status = None \/ status = Some "" ->
  let mine :=
    filter (fun o => String.eqb (Order.userId o) (SessionUser.id user))
      (World.orders w) in
  GET' (GetRequest.mk (Some user) limit page status) w
  = Listed (map (listing w) (firstn 10 (newest_first mine)))
      (Pagination.mk (Some 1) (Some 10) (Z.of_nat (List.length mine))
         (Some (- (- Z.of_nat (List.length mine) / 10)))).
Proof.
  intros Hid H10 H1 Hl Hp Hs mine.
  assert (Hq : regular_query' (GetRequest.mk (Some user) limit page status)
                 10 1).
  { unfold regular_query. cbn [GetRequest.limit GetRequest.page
                               GetRequest.status].
    repeat split; try lia.
    - now destruct Hl as [-> | ->].
    - now destruct Hp as [-> | ->].
    - intros s -> Hne. destruct Hs as [[=] | [= ->]]. contradiction. }
  rewrite (GET_regular (GetRequest.mk (Some user) limit page status)
             user _ _ _ eq_refl Hid Hq).
  cbn [GetRequest.status].
  assert (Hsel : selected user status w = mine).
  { unfold mine. apply filter_ext. intros o. unfold matches, where_of.
    cbn [Where.userId Where.status].
    destruct Hs as [-> | ->]; cbn; apply andb_true_r. }
  rewrite Hsel. reflexivity.
Qed.

Lemma chunks_concat {A} (L : nat) :
  (0 < L)%nat ->
  forall n (l : list A),
    (List.length l <= n * L)%nat ->
    List.concat (map (fun i => firstn L (skipn (i * L) l)) (seq 0 n)) = l.
Proof.
  intros HL. induction n as [| n IH]; intros l Hlen.
  - destruct l; [reflexivity | cbn in Hlen; lia].
  - cbn [seq map List.concat]. cbn [Nat.mul skipn].
    rewrite <- seq_shift, map_map.
    rewrite (map_ext _ (fun i => firstn L (skipn (i * L) (skipn L l)))).
    + rewrite IH; [apply firstn_skipn |]. rewrite length_skipn. lia.
    + intros i. rewrite skipn_skipn. do 2 f_equal. lia.
Qed.

(** X17.  The pages of a listing tile it: for a limit of 1 or more, the
    orders of pages 1, 2, ... up to the number of pages the answers
    give, put one after the other, are the caller's orders of the asked
    status, each of them once, in the arrangement of the listing. *)
Theorem pages_tile_the_orders user limit status L numeral w :
  SessionUser.id user <> "" ->
  parseInt (or_default limit "10") = Some L ->
  1 <= L <= 2147483647 ->
  (forall s, status = Some s -> s <> "" -> is_status s = true) ->
  Z.of_nat (List.length (selected user status w)) <= 2147483647 ->
  (forall k, 1 <= k -> numeral k <> "" /\ parseInt (numeral k) = Some k) ->
  List.concat
    (map (fun k =>
            orders_of
              (GET' (GetRequest.mk (Some user) limit (Some (numeral k))
                       status) w))
       (map Z.of_nat
          (seq 1
             (Z.to_nat
                (- (- Z.of_nat (List.length (selected user status w))
                    / L))))))
  = map (listing w) (newest_first (selected user status w)).
Proof.
  intros Hid HL HLr Hstatus Htotal Hnum.
  set (mine := selected user status w) in *.
  set (total := Z.of_nat (List.length mine)) in *.
  set (pages := - (- total / L)).
  assert (Hpages : (pages - 1) * L < total <= pages * L).
  { pose proof (Z.div_mod (- total) L ltac:(lia)).
    pose proof (Z.mod_pos_bound (- total) L ltac:(lia)).
    unfold pages. nia. }
  assert (Hpos : 0 <= pages) by (unfold total in *; nia).
  rewrite map_map.
  rewrite (map_ext_in _
             (fun i => map (listing w)
                         (firstn (Z.to_nat L)
                            (skipn ((i - 1) * Z.to_nat L)
                               (newest_first mine))))).
  - rewrite <- seq_shift, map_map.
    rewrite (map_ext _
               (fun i => map (listing w)
                           (firstn (Z.to_nat L)
                              (skipn (i * Z.to_nat L)
                                 (newest_first mine)))))
      by (intros i; do 3 f_equal; lia).
    rewrite <- (map_map (fun i => firstn (Z.to_nat L)
                                    (skipn (i * Z.to_nat L)
                                       (newest_first mine)))
                  (map (listing w))).
    rewrite <- List.concat_map. f_equal. apply chunks_concat; [lia |].
    rewrite (Permutation_length (newest_first_perm mine)).
    fold total. nia.
  - intros i Hi. apply in_seq in Hi.
    destruct (Hnum (Z.of_nat i) ltac:(lia)) as [Hne Hparse].
    assert (Hq : regular_query'
                   (GetRequest.mk (Some user) limit
                      (Some (numeral (Z.of_nat i))) status)
                   L (Z.of_nat i)).
    { unfold regular_query. cbn [GetRequest.limit GetRequest.page
                                 GetRequest.status or_default].
      destruct (String.eqb (numeral (Z.of_nat i)) "") eqn:E.
      { apply String.eqb_eq in E. contradiction. }
      repeat split; auto; try lia; nia. }
    rewrite (GET_regular
               (GetRequest.mk (Some user) limit
                  (Some (numeral (Z.of_nat i))) status)
               user _ _ _ eq_refl Hid Hq).
    cbn [orders_of GetRequest.status]. do 3 f_equal.
    rewrite Z2Nat.inj_mul by lia. f_equal. lia.
Qed.

#[local] Abbreviation run := (runProg cuid Date_now generateQRCode sendTicketEmail).

(** X18.  A purchase is listed.  Once a line item went through, a query
    of the buyer for the first page, with a limit that holds all of the
    buyer's orders, lists the order of the response, with the event the
    item names and, nested, exactly the ticket rows the item wrote: as
    many as the quantity of the item.  (The id of the new order is
    assumed fresh among the ticket rows of before.) *)
Theorem purchase_then_listed w user item c w' limit L :
  run (POST_item user item) w = (Some (inr c), w') ->
  SessionUser.id user <> "" ->
  (forall t, In t (World.tickets w) ->
             Ticket.orderId t <> Order.id (OrderWithEvent.order c)) ->
  parseInt (or_default limit "10") = Some L ->
  parseInt "1" = Some 1 ->
  Z.of_nat (List.length (selected user None w')) <= L <= 2147483647 ->
  exists orders pagination l,
    GET' (GetRequest.mk (Some user) limit None None) w'
    = Listed orders pagination /\
    In l orders /\
    OrderListing.order l = OrderWithEvent.order c /\
    OrderListing.event l = Some (summary (OrderWithEvent.event c)) /\
    Item.eventId item = Some (Event.id (OrderWithEvent.event c)) /\
    World.tickets w'
    = (World.tickets w
       ++ map TicketWithType.ticket (OrderListing.tickets l))%list /\
    List.length (OrderListing.tickets l) = Z.to_nat (quantity_of item).
Proof.
  intros Hrun Hid Hfresh HL H1 Hlen.
  assert (Hq : regular_query' (GetRequest.mk (Some user) limit None None)
                 L 1).
  { unfold regular_query. cbn [GetRequest.limit GetRequest.page
                               GetRequest.status or_default].
    repeat split; auto; try lia. discriminate. }
  rewrite (GET_regular (GetRequest.mk (Some user) limit None None)
             user _ _ _ eq_refl Hid Hq).
  cbn [GetRequest.status]. replace ((1 - 1) * L) with 0 by lia.
  cbn [Z.to_nat skipn].
  rewrite firstn_all2
    by (rewrite (Permutation_length (newest_first_perm _)); lia).
  apply run_POST_item_cases in Hrun
    as [(response & [=] & _)
       | (eventId & ev & ticketTypeObj & Hitem & _ & Hev & _ & Hout)].
  inversion Hout as [| ev0 l0 Hev0 _ _ Hminted _ Hc Hw' | | | |].
  clear Hout. subst c w'. rewrite Hev in Hev0. injection Hev0 as <-.
  cbn [OrderWithEvent.order OrderWithEvent.event] in *.
  set (o := new_order cuid w user eventId (Item.price item)
              (quantity_of item) ticketTypeObj) in *.
  set (w' := issued cuid sendTicketEmail w user eventId (Item.price item)
               (quantity_of item) ticketTypeObj ev l0) in *.
  assert (Hrows : filter (fun t => String.eqb (Ticket.orderId t) (Order.id o))
                    (World.tickets w') 
                  = ticket_rows cuid (S (World.cuids w)) l0).
  { cbn [w' issued World.tickets]. rewrite filter_app.
    replace (filter _ (World.tickets w)) with (@nil Ticket.t).
    - cbn [app]. apply forallb_filter_id. apply forallb_forall.
      intros t Ht. apply In_mapi in Ht as (d & n & Hd & ->).
      cbn [Ticket.orderId]. apply String.eqb_eq.
      apply minted_refs in Hminted. rewrite Forall_forall in Hminted.
      now destruct (Hminted d Hd) as (-> & _).
    - symmetry. induction (World.tickets w) as [| t ts IH];
        [reflexivity |]. cbn [filter].
      destruct (String.eqb (Ticket.orderId t) (Order.id o)) eqn:E.
      + apply String.eqb_eq in E. exfalso.
        apply (Hfresh t); [now left | exact E].
      + apply IH. intros t' Ht'. apply Hfresh. now right. }
  do 2 eexists. exists (listing w' o).
  split; [reflexivity |]. split; [| split; [reflexivity | split; [| split]]].
  - apply in_map.
    apply (Permutation_in _ (Permutation_sym (newest_first_perm _))).
    apply filter_In. split.
    + cbn [w' issued World.orders]. apply in_or_app. right. now left.
    + unfold matches, where_of. cbn. rewrite String.eqb_refl. reflexivity.
  - cbn [listing OrderListing.event o new_order Order.eventId].
    unfold find_event. cbn [w' issued World.events].
    rewrite find_increment_soldTickets.
    unfold find_event in Hev. rewrite Hev. reflexivity.
  - unfold find_event in Hev. apply find_some in Hev as [_ Hev].
    apply String.eqb_eq in Hev. now rewrite Hev.
  - cbn [listing OrderListing.tickets]. rewrite Hrows, map_map.
    cbn [with_type TicketWithType.ticket]. rewrite map_id.
    split; [reflexivity |].
    rewrite length_map. unfold ticket_rows. rewrite mapi_length.
    eapply minted_length, Hminted.
Qed.

End Listings.

(* ================================================================== *)
(** ** Purchases and listings on the instances *)

Module Checks.

Import Scenario Cases.

Lemma parse_numeral (k : Z) : parse (Z_to_string k) = Some k.
Proof.
  unfold parse, Z_to_string.
  rewrite NilZero.isi.
  - cbn [option_map]. now rewrite DecimalZ.of_to.
  - destruct k; simpl; try discriminate.
    intros [= E]. now apply DecimalPos.Unsigned.to_uint_nonnil in E.
  - destruct k; simpl; try discriminate.
    intros [= E]. now apply DecimalPos.Unsigned.to_uint_nonnil in E.
Qed.

Lemma numeral_not_empty (k : Z) : Z_to_string k <> "".
Proof.
  intros E. pose proof (parse_numeral k) as H. rewrite E in H. discriminate.
Qed.

Lemma newest_perm (l : list Order.t) : Permutation (newest l) l.
Proof. apply Permutation_sym, Permutation_rev. Qed.

(** A request without a session, and Alice's empty cart. *)
Lemma refused_request_writes_nothing_witness :
  POST ids clock qr deliver (Request.mk None None) world
  = (error_response "Unauthorized" 401, world) /\
  POST ids clock qr deliver (cart alice []) world
  = (error_response "No items in order" 400, world).
Proof.
  split.
  - apply (proj1 (refused_request_writes_nothing ids clock qr deliver
                    (Request.mk None None) world)).
    left. reflexivity.
  - apply (proj2 (proj2 (refused_request_writes_nothing ids clock qr deliver
                           (cart alice []) world)
                    alice eq_refl ltac:(discriminate))
             (Body.mk (Some []) JNull JNull JNull) eq_refl).
    right. reflexivity.
Defined.

(** An item without an event, and an item for an event there is not. *)
Lemma early_return_writes_nothing_witness :
  runProg ids clock qr deliver (POST_item alice stray_item) world
  = (Some (inl (error_response "Missing eventId in item" 400)), world) /\
  runProg ids clock qr deliver (POST_item alice ghost_item) world
  = (Some (inl (error_response "Event not found" 404)), world).
Proof.
  split.
  - apply (proj1 (proj2 (early_return_writes_nothing ids clock qr deliver
                           world alice stray_item))).
    reflexivity.
  - apply (proj2 (proj2 (early_return_writes_nothing ids clock qr deliver
                           world alice ghost_item)) "e9").
    + reflexivity.
    + discriminate.
    + reflexivity.
Defined.

(** Alice's cart of two VIP tickets, then one more VIP ticket: the
    second item is refused, the order of the first stays. *)
Lemma earlier_items_stay_committed_witness :
  exists c w1,
    runProg ids clock qr deliver
      (POST_items alice [vip_item 2; vip_item 1] []) world
    = (Some (error_response "Not enough tickets available" 400), w1) /\
    World.orders w1 = [OrderWithEvent.order c].
Proof.
  destruct (runProg ids clock qr deliver (POST_item alice (vip_item 2)) world)
    as [[[r | c] |] w1] eqn:H1; try (vm_compute in H1; discriminate).
  pose proof H1 as E1. vm_compute in E1. injection E1 as Ec Ew.
  destruct (runProg ids clock qr deliver (POST_item alice (vip_item 1)) w1)
    as [[[r | c'] |] w2] eqn:H2;
    try (rewrite <- Ew in H2; vm_compute in H2; discriminate).
  pose proof H2 as E2. rewrite <- Ew in E2 at 1. vm_compute in E2.
  injection E2 as Er _.
  destruct (earlier_items_stay_committed ids clock qr deliver alice
              [vip_item 2] (vip_item 1) [] [] world [c] w1 r w2)
    as (Hrun & Horders & _).
  - eapply through_cons; [exact H1 | apply through_nil].
  - exact H2.
  - exists c, w1. split.
    + rewrite <- Er in Hrun. exact Hrun.
    + rewrite Horders. reflexivity.
Defined.

(** Alice buys two VIP tickets at a price of her own: the tickets are
    at the price of the type. *)
Lemma tickets_carry_type_price_witness :
  exists r w',
    runProg ids clock qr deliver
      (POST_item alice (priced_item 2 5%float)) world = (r, w') /\
    List.length (World.tickets w') = 2%nat /\
    Forall (fun t => exists ticketTypeObj,
                In ticketTypeObj [vip; standard] /\
                Ticket.price t = TicketType.price ticketTypeObj)
      (World.tickets w').
Proof.
  destruct (runProg ids clock qr deliver
              (POST_item alice (priced_item 2 5%float)) world)
    as [r w'] eqn:H.
  destruct (tickets_carry_type_price ids clock qr deliver world alice
              (priced_item 2 5%float) r w' H) as (new & Hnew & Hall).
  exists r, w'. split; [reflexivity |]. split.
  - vm_compute in H. injection H as _ <-. reflexivity.
  - rewrite Hnew. cbn [world World.tickets app].
    eapply Forall_impl; [| exact Hall].
    intros t (_ & _ & _ & _ & tt0 & Hin & _ & _ & _ & Hp). eauto.
Defined.

(** The gala returned with Alice's order has sold no ticket; the gala
    in the table has sold two. *)
Lemma response_event_is_stale_witness :
  exists c w',
    runProg ids clock qr deliver (POST_item alice (vip_item 2)) world
    = (Some (inr c), w') /\
    find_event "e1" world = Some (OrderWithEvent.event c) /\
    option_map Event.soldTickets (find_event "e1" w')
    = Some (Event.soldTickets (OrderWithEvent.event c) + 2).
Proof.
  destruct (runProg ids clock qr deliver (POST_item alice (vip_item 2)) world)
    as [[[r | c] |] w'] eqn:H; try (vm_compute in H; discriminate).
  destruct (response_event_is_stale ids clock qr deliver world alice
              (vip_item 2) c w' H) as (eventId & Hid & Hbefore & Hafter).
  injection Hid as <-.
  exists c, w'. split; [reflexivity |]. split; [exact Hbefore |].
  rewrite Hafter. reflexivity.
Defined.

(** The first pushed ticket has a data URL for a code, the second a
    bare text. *)
Lemma attachment_content_witness :
  exists a b,
    attachments_of pushed = [a; b] /\
    Attachment.content a = Some "iVBORw0KGgo=" /\
    Attachment.content b = None.
Proof.
  destruct (attachment_content pushed 0 _ eq_refl)
    as (a & Ha & _ & _ & Hurl).
  destruct (attachment_content pushed 1 _ eq_refl)
    as (b & Hb & _ & Hbare & _).
  exists a, b. split; [| split].
  - vm_compute in Ha, Hb. injection Ha as <-. injection Hb as <-.
    reflexivity.
  - apply (Hurl "data:image/png;base64" "iVBORw0KGgo="); reflexivity.
  - apply Hbare. reflexivity.
Defined.



(** The two requests of the stale read, each for one ticket: the
    counters end higher than they started. *)
Lemma counted_requests_never_decrement_witness :
  counters_grow one_left
    (snd (interleave ids clock qr deliver stale_read
            (map (fun request => Running (POST_try request))
               [cart alice [vip_item 1]; cart bob [vip_item 1]])
            one_left)).
Proof.
  apply (counted_requests_never_decrement ids clock qr deliver).
  repeat constructor; intros body items [= <-] [= <-];
    repeat constructor; discriminate.
Defined.

(** The second credential of Alice's order is rejected. *)
Lemma rejected_credential_leaves_order_witness :
  exists w',
    runProg ids clock smudged deliver (POST_item alice (vip_item 2)) world
    = (None, w') /\
    List.length (World.orders w') = 1%nat /\
    World.tickets w' = [] /\ World.mails w' = [] /\
    World.ticketTypes w' = [vip; standard] /\ World.events w' = [gala].
Proof.
  destruct (rejected_credential_leaves_order ids clock smudged deliver
              world alice (vip_item 2) "e1" gala vip)
    as (w' & Hrun & Ho & Ht & Hm & Hy & He).
  - reflexivity.
  - discriminate.
  - reflexivity.
  - reflexivity.
  - vm_compute. discriminate.
  - vm_compute. reflexivity.
  - exists w'. repeat split; try assumption.
    rewrite Ho. reflexivity.
Defined.

(** The mail of Alice's two VIP tickets. *)
Lemma one_mail_per_item_witness :
  exists c w' mail,
    runProg ids clock qr deliver (POST_item alice (vip_item 2)) world
    = (Some (inr c), w') /\
    map fst (World.mails w') = [mail] /\
    EmailArgs.user_email mail = Some "alice@example.org" /\
    map EmailTicket.type (EmailArgs.tickets mail)
    = map Ticket.type (World.tickets w').
Proof.
  destruct (runProg ids clock qr deliver (POST_item alice (vip_item 2)) world)
    as [[[r | c] |] w'] eqn:H; try (vm_compute in H; discriminate).
  destruct (one_mail_per_item ids clock qr deliver world alice (vip_item 2)
              c w' H)
    as (mail & sent & new & Hm & _ & Ht & _ & He & _ & Hy & _).
  exists c, w', mail. split; [reflexivity |].
  rewrite Hm, Ht. cbn [world World.mails World.tickets app map fst].
  auto.
Defined.

(** Alice's purchase of one VIP ticket is successful throughout: the
    response is 201 with her order, which has no ["tickets"] member,
    and her ticket is in the table. *)
Lemma response_lists_orders_with_event_witness :
  exists response c w' issued,
    POST ids clock qr deliver (cart alice [vip_item 1]) world
    = (response, w') /\
    Response.status response = 201 /\
    Response.body response
    = JObj [("orders", JArr [OrderWithEvent.to_json c])] /\
    World.orders w' = [OrderWithEvent.order c] /\
    json_get "tickets" (OrderWithEvent.to_json c) = None /\
    List.length issued = 1%nat /\
    incl issued (World.tickets w') /\
    Forall (fun t => Ticket.orderId t = Order.id (OrderWithEvent.order c))
      issued.
Proof.
  destruct (runProg ids clock qr deliver (POST_item alice (vip_item 1)) world)
    as [[[r | c] |] w'] eqn:H; try (vm_compute in H; discriminate).
  destruct (proj1 (response_lists_orders_with_event ids clock qr deliver
                     (cart alice [vip_item 1]) alice
                     (Body.mk (Some [vip_item 1]) JNull JNull JNull)
                     [vip_item 1] world eq_refl ltac:(discriminate)
                     eq_refl eq_refl ltac:(discriminate))
              [c] w')
    as (response & Hpost & Hst & Hbody & Hord & Hall).
  - eapply through_cons; [exact H | apply through_nil].
  - apply Forall2_cons_iff in Hall as [Hhead _].
    destruct Hhead
      as (_ & _ & _ & _ & _ & Hnone & before & issued & after
          & Htickets & Hlen & Hrefs).
    exists response, c, w', issued.
    repeat split; try assumption.
    intros t Ht. rewrite Htickets. apply in_or_app. right.
    apply in_or_app. now left.
Defined.


Lemma regular_on_busy limit page status L P :
  parse (or_default limit "10") = Some L ->
  parse (or_default page "1") = Some P ->
  0 <= L <= 2147483647 ->
  0 <= (P - 1) * L <= 2147483647 ->
  (forall s, status = Some s -> s <> "" -> is_status s = true) ->
  regular_query parse (query alice limit page status) L P.
Proof. intros. repeat split; auto; lia. Qed.

(** Alice asks for the second page, two by page, of her pending orders:
    the one order listed is hers and pending. *)
Lemma listing_scoped_to_caller_witness :
  exists orders pagination,
    GET parse newest no_listing no_count
      (query alice (Some "2") (Some "2") (Some "PENDING")) busy
    = Listed orders pagination /\
    List.length orders = 1%nat /\
    Forall (fun l => Order.userId (OrderListing.order l) = "u1" /\
                     Order.status (OrderListing.order l)
                     = OrderStatus.PENDING)
      orders.
Proof.
  destruct (listing_scoped_to_caller parse newest no_listing no_count
              newest_perm
              (query alice (Some "2") (Some "2") (Some "PENDING")) alice
              2 2 busy)
    as (orders & total & pages & Hget & Hall).
  - reflexivity.
  - discriminate.
  - apply regular_on_busy; try reflexivity; try lia.
    intros s [= <-] _. reflexivity.
  - exists orders, (Pagination.mk (Some 2) (Some 2) total pages).
    split; [exact Hget |]. split.
    + vm_compute in Hget. injection Hget as <- _ _. reflexivity.
    + eapply Forall_impl; [| exact Hall].
      intros l (_ & _ & Hu & Hs & _). split; [exact Hu |].
      specialize (Hs "PENDING" eq_refl ltac:(discriminate)).
      destruct (Order.status (OrderListing.order l));
        try discriminate Hs. reflexivity.
Defined.

(** Alice has three orders: at two by page they take two pages, and
    the second page holds one. *)
Lemma pagination_is_consistent_witness :
  exists orders,
    GET parse newest no_listing no_count
      (query alice (Some "2") (Some "2") None) busy
    = Listed orders (Pagination.mk (Some 2) (Some 2) 3 (Some 2)) /\
    List.length orders = 1%nat.
Proof.
  destruct (pagination_is_consistent parse newest no_listing no_count
              newest_perm (query alice (Some "2") (Some "2") None) alice
              2 2 busy)
    as (orders & total & pages & Hget & Htotal & Hpages & Hlen).
  - reflexivity.
  - discriminate.
  - apply regular_on_busy; try reflexivity; try lia. discriminate.
  - lia.
  - assert (Et : total = 3) by (rewrite Htotal; reflexivity).
    assert (Ep : pages = 2) by lia.
    exists orders. rewrite Hget, Et, Ep. split; [reflexivity | lia].
Defined.

(** Alice asks for pages of no order. *)
Lemma zero_limit_lists_nothing_witness :
  GET parse newest no_listing no_count
    (query alice (Some "0") None None) busy
  = Listed [] (Pagination.mk (Some 1) (Some 0) 3 None).
Proof.
  destruct (zero_limit_lists_nothing parse newest no_listing no_count
              (query alice (Some "0") None None) alice 1 busy)
    as (total & Hget).
  - reflexivity.
  - discriminate.
  - apply regular_on_busy; try reflexivity; try lia. discriminate.
  - rewrite Hget. vm_compute in Hget. injection Hget as <-. reflexivity.
Defined.

(** Alice's query with an empty limit and an empty status, and no
    page. *)
Lemma bare_request_takes_defaults_witness :
  exists orders,
    GET parse newest no_listing no_count
      (query alice (Some "") None (Some "")) busy
    = Listed orders (Pagination.mk (Some 1) (Some 10) 3 (Some 1)) /\
    List.length orders = 3%nat.
Proof.
  pose proof (bare_request_takes_defaults parse newest no_listing no_count
                alice (Some "") None (Some "") busy
                ltac:(discriminate) eq_refl eq_refl
                (or_intror eq_refl) (or_introl eq_refl) (or_intror eq_refl))
    as H.
  cbv zeta in H. unfold query. rewrite H. eexists. split.
  - apply (f_equal (Listed _)). vm_compute. reflexivity.
  - vm_compute. reflexivity.
Defined.

(** Alice's three orders at two by page: the two pages, one after the
    other, are her orders, newest first. *)
Lemma pages_tile_the_orders_witness :
  List.concat
    (map (fun k =>
            orders_of
              (GET parse newest no_listing no_count
                 (GetRequest.mk (Some alice) (Some "2")
                    (Some (Z_to_string k)) None) busy))
       (map Z.of_nat
          (seq 1
             (Z.to_nat
                (- (- Z.of_nat
                        (List.length
                           (filter (matches (where_of alice None))
                              (World.orders busy)))
                    / 2))))))
  = map (listing busy)
      (newest
         (filter (matches (where_of alice None)) (World.orders busy))).
Proof.
  apply (pages_tile_the_orders parse newest no_listing no_count
           newest_perm alice (Some "2") None 2 Z_to_string busy).
  - discriminate.
  - reflexivity.
  - lia.
  - discriminate.
  - vm_compute. discriminate.
  - intros k _. split; [apply numeral_not_empty | apply parse_numeral].
Defined.

(** Alice buys two VIP tickets and asks for her orders. *)
Lemma purchase_then_listed_witness :
  exists c w' orders pagination l,
    runProg ids clock qr deliver (POST_item alice (vip_item 2)) world
    = (Some (inr c), w') /\
    GET parse newest no_listing no_count (query alice None None None) w'
    = Listed orders pagination /\
    In l orders /\
    OrderListing.order l = OrderWithEvent.order c /\
    map TicketWithType.ticket (OrderListing.tickets l) = World.tickets w' /\
    List.length (OrderListing.tickets l) = 2%nat.
Proof.
  destruct (runProg ids clock qr deliver (POST_item alice (vip_item 2)) world)
    as [[[r | c] |] w'] eqn:H; try (vm_compute in H; discriminate).
  pose proof H as E. vm_compute in E. injection E as Ec Ew.
  destruct (purchase_then_listed ids clock qr deliver parse newest
              no_listing no_count newest_perm world alice (vip_item 2)
              c w' None 10 H)
    as (orders & pagination & l & Hget & Hin & Ho & _ & _ & Ht & Hlen).
  - discriminate.
  - intros t [].
  - reflexivity.
  - reflexivity.
  - rewrite <- Ew. vm_compute. split; discriminate.
  - exists c, w', orders, pagination, l. repeat split; auto.
Defined.

End Checks.
